(** * Key-term extraction for legal documents: curation, section mapping,
      persisted records and the change monitor

    A shallow embedding of [legaldocs/preprocess.py] (class
    [TermExtractionHandler]), [update.py] (class [TermExtractionUpdater]),
    [legaldocs/evaluate.py], [pdf2text.py] and [legaldocs/main.py].

    Conventions of the embedding.
    - A Python [str] is a list of code points.  The model covers the code
      points below 256 (ASCII and Latin-1), which [ascii] enumerates; on
      these [str.lower] works character by character.
    - A Python [set] of strings is a [gset]; the order in which the
      interpreter iterates over a set (it depends on the string hash seed
      of the process) is a parameter, a [SetOrder].
    - A Python [dict] is an association list in insertion order with
      unique keys; [d[k] = v] keeps the position of an existing key.
    - Exceptions are the [Raise] outcome of a [result].
    - The file system is a directory listing: a [dict] from file names to
      contents.  A file opened in text mode is read with universal
      newlines ([universal_newlines]); the loaders that only split the
      content into lines take it as it is, since the translation changes
      no line ([splitlines_universal_newlines]).  What is written reaches
      the file as it is: the line separator is the line feed. *)

From Stdlib Require Import Ascii String NArith.
From stdpp Require Import gmap strings list.

#[local] Set Warnings "-clear-no-such-hyp".

Abbreviation str := (list ascii).
Coercion list_ascii_of_string : string >-> list.

(** ** Characters *)

Definition LF : ascii := "010"%char.
Definition code (c : ascii) : N := N_of_ascii c.
Definition between (lo hi : N) (c : ascii) : bool :=
  ((lo <=? code c) && (code c <=? hi))%N.
Definition is_code (n : N) (c : ascii) : bool := (code c =? n)%N.

(** [str.isspace] on one character, also the class [\s] of [re] and the
    characters removed by [str.strip()]. *)
Definition isspace (c : ascii) : bool :=
  between 9 13 c || between 28 32 c || is_code 133 c || is_code 160 c.

(** The line boundaries of [str.splitlines]. *)
Definition is_linebreak (c : ascii) : bool :=
  between 10 13 c || between 28 30 c || is_code 133 c.

(** The class [\d] of [re] (Unicode decimal digits). *)
Definition isdecimal (c : ascii) : bool := between 48 57 c.

(** The class [\w] of [re]: alphanumeric or underscore. *)
Definition isalnum (c : ascii) : bool :=
  between 48 57 c || between 65 90 c || between 97 122 c
  || is_code 170 c || is_code 178 c || is_code 179 c || is_code 181 c
  || is_code 185 c || is_code 186 c || between 188 190 c
  || between 192 214 c || between 216 246 c || between 248 255 c.
Definition is_word (c : ascii) : bool := isalnum c || is_code 95 c.

Definition lower_char (c : ascii) : ascii :=
  if between 65 90 c || between 192 214 c || between 216 222 c
  then ascii_of_N (code c + 32) else c.

(** ** Strings *)

(** [s.lower()] *)
Definition lower (s : str) : str := lower_char <$> s.

(** [s.startswith(p)] *)
Fixpoint startswith (s p : str) {struct p} : bool :=
  match p, s with
  | [], _ => true
  | a :: p', b :: s' => if Ascii.eqb a b then startswith s' p' else false
  | _ :: _, [] => false
  end.

(** [s.endswith(p)] *)
Definition endswith (s p : str) : bool := startswith (reverse s) (reverse p).

(** [t in s] on strings *)
Fixpoint is_in (t s : str) : bool :=
  startswith s t || match s with [] => false | _ :: s' => is_in t s' end.

Fixpoint lstrip (s : str) : str :=
  match s with
  | c :: s' => if isspace c then lstrip s' else s
  | [] => []
  end.

Fixpoint rstrip (s : str) : str :=
  match s with
  | [] => []
  | c :: s' =>
      match rstrip s' with
      | [] => if isspace c then [] else [c]
      | r => c :: r
      end
  end.

(** [s.strip()] *)
Definition strip (s : str) : str := rstrip (lstrip s).

(** [s.replace(old, new)] for a non-empty [old]: occurrences are replaced
    from the left and do not overlap; [skip] counts the characters of a
    replaced occurrence still to be dropped. *)
Fixpoint replace_go (old new : str) (skip : nat) (s : str) : str :=
  match s with
  | [] => []
  | c :: s' =>
      match skip with
      | S k => replace_go old new k s'
      | O =>
          if startswith s old
          then new ++ replace_go old new (length old - 1) s'
          else c :: replace_go old new 0 s'
      end
  end.
Definition replace (s old new : str) : str := replace_go old new 0 s.

(** [s.splitlines()]: [cur] is the line being read, [after_cr] tells that
    the previous character was a carriage return, so that a line feed
    right after it belongs to the same boundary. *)
Fixpoint splitlines_go (after_cr : bool) (cur : str) (s : str) : list str :=
  match s with
  | [] => match cur with [] => [] | _ => [cur] end
  | c :: s' =>
      if after_cr && bool_decide (c = LF) then splitlines_go false cur s'
      else if is_linebreak c
      then cur :: splitlines_go (is_code 13 c) [] s'
      else splitlines_go false (cur ++ [c]) s'
  end.
Definition splitlines (s : str) : list str := splitlines_go false [] s.

(** What reading a file in text mode does to its line ends (universal
    newlines, the default of [open]): a carriage return with the line
    feed after it, and a carriage return alone, become a line feed. *)
Fixpoint universal_newlines (s : str) : str :=
  match s with
  | [] => []
  | c :: s' =>
      if is_code 13 c then
        LF :: match s' with
              | d :: s'' =>
                  if is_code 10 d then universal_newlines s''
                  else universal_newlines s'
              | [] => []
              end
      else c :: universal_newlines s'
  end.

(** [s.split(sep)] for a one-character separator. *)
Fixpoint split_go (sep : ascii) (cur : str) (s : str) : list str :=
  match s with
  | [] => [cur]
  | c :: s' =>
      if Ascii.eqb c sep then cur :: split_go sep [] s'
      else split_go sep (cur ++ [c]) s'
  end.
Definition split (s : str) (sep : ascii) : list str := split_go sep [] s.

(** ** Exceptions *)

Inductive exn : Type :=
  | KeyError (key : str)
  | IndexError
  | FileNotFoundError (path : str)
  | ExternalError (message : str).

Inductive result (A : Type) : Type :=
  | Ok (a : A)
  | Raise (e : exn).
Arguments Ok {A} a.
Arguments Raise {A} e.

Global Instance result_ret : MRet result := λ A a, Ok a.
Global Instance result_bind : MBind result := λ A B f m,
  match m with Ok a => f a | Raise e => Raise e end.

(** A [for] loop whose body may raise: the first exception ends it. *)
Fixpoint for_each {A S : Type} (body : S → A → result S) (xs : list A)
    (st : S) : result S :=
  match xs with
  | [] => Ok st
  | x :: xs' => st' ← body st x; for_each body xs' st'
  end.

(** [l[i]] on a list *)
Definition item {A : Type} (l : list A) (i : nat) : result A :=
  match l !! i with Some a => Ok a | None => Raise IndexError end.

(** ** Dictionaries *)

Abbreviation dict V := (list (str * V)).

Fixpoint dict_get {V : Type} (k : str) (d : dict V) : option V :=
  match d with
  | [] => None
  | (k', v) :: d' => if decide (k = k') then Some v else dict_get k d'
  end.

(** [d[k] = v] *)
Fixpoint dict_set {V : Type} (k : str) (v : V) (d : dict V) : dict V :=
  match d with
  | [] => [(k, v)]
  | (k', v') :: d' =>
      if decide (k = k') then (k, v) :: d' else (k', v') :: dict_set k v d'
  end.

(** [d[k]] as an expression *)
Definition subscript {V : Type} (d : dict V) (k : str) : result V :=
  match dict_get k d with Some v => Ok v | None => Raise (KeyError k) end.

Definition dict_keys {V : Type} (d : dict V) : list str := d.*1.

(** [d1 == d2] on dictionaries: the same keys with the same values, in any
    order. *)
Definition dict_eq {V : Type} (d1 d2 : dict V) : Prop :=
  ∀ k, dict_get k d1 = dict_get k d2.

(** ** Sets and their iteration order *)

(** [list(s)] and [for x in s] visit the members of a set once each, in an
    order that the program does not control. *)
Record SetOrder : Type := {
  set_iter :> gset str → list str;
  set_iter_perm : ∀ s, set_iter s ≡ₚ elements s
}.

Definition elements_order : SetOrder :=
  {| set_iter := elements; set_iter_perm := λ s, reflexivity (elements s) |}.

Definition reverse_order : SetOrder :=
  {| set_iter := λ s, reverse (elements s);
     set_iter_perm := λ s, reverse_Permutation (elements s) |}.

(** ** [legaldocs/preprocess.py]: class [TermExtractionHandler] *)

Module Preprocess.

(** [load_text_files]: the files of the directory whose name ends with
    [_text.txt], by name, each as [open(..., "r")] reads it. *)
Definition load_text_files (directory : dict str) : dict str :=
  foldl (λ texts entry,
           if endswith entry.1 "_text.txt"
           then dict_set entry.1 (universal_newlines entry.2) texts
           else texts)
        [] directory.

(** [load_ground_truth_terms]: the bullet lines of every [_terms.txt] file,
    trimmed and lower-cased. *)
Definition load_ground_truth_terms (directory : dict str) : gset str :=
  foldl (λ terms entry,
           if endswith entry.1 "_terms.txt"
           then foldl (λ ts line,
                         if startswith line "- "
                         then {[lower (strip (drop 2 line))]} ∪ ts else ts)
                      terms (splitlines entry.2)
           else terms)
        ∅ directory.

Definition critical_terms : list str :=
  [("confidentiality" : str); ("security deposit" : str);
   ("employee's duties" : str)].

(** [ensure_critical_terms]: the set is updated in place and then listed. *)
Definition ensure_critical_terms (order : SetOrder)
    (extracted_terms : gset str) (text : str) : list str :=
  let text_lower := lower text in
  order (foldl (λ extracted term,
                  if is_in term text_lower
                  then if bool_decide (term ∈ extracted) then extracted
                       else {[term]} ∪ extracted
                  else extracted)
               extracted_terms critical_terms).

(** [ensure_ground_truth_terms]: the ground-truth set is iterated over and
    the list is appended to. *)
Definition ensure_ground_truth_terms (order : SetOrder)
    (extracted_terms : list str) (ground_truth_terms : gset str)
    (text : str) : list str :=
  let text_lower := lower text in
  foldl (λ extracted term,
           if is_in term text_lower
           then if bool_decide (term ∈ extracted) then extracted
                else extracted ++ [term]
           else extracted)
        extracted_terms (order ground_truth_terms).

Definition filter_relevant_terms (terms : list str)
    (ground_truth_terms : gset str) : list str :=
  filter (λ term, term ∈ ground_truth_terms) terms.

(** The rest of [\d+\.\s] after its first digit. *)
Fixpoint digits_dot_space (s : str) : bool :=
  match s with
  | c :: s' =>
      if isdecimal c then digits_dot_space s'
      else if is_code 46 c
      then match s' with w :: _ => isspace w | [] => false end
      else false
  | [] => false
  end.

(** Whether [\b\d+\.\s] matches at the start of [s], the character before
    it being [prev]: the first character is a digit, hence a word
    character, so [\b] holds at the start of the text and after a
    character that is not a word character. *)
Definition heading_at (prev : option ascii) (s : str) : bool :=
  match s with
  | c :: s' =>
      isdecimal c && digits_dot_space s'
      && match prev with None => true | Some p => negb (is_word p) end
  | [] => false
  end.

(** [re.split] on a zero-width pattern: every position where the pattern
    matches ends the current piece (an empty first piece when the text
    starts with a match); nothing is consumed.  [matches_at prev s] tells
    whether the pattern matches before [s], the character before being
    [prev]. *)
Fixpoint re_split_go {A : Type} (matches_at : option A → list A → bool)
    (prev : option A) (cur : list A) (s : list A) : list (list A) :=
  match s with
  | [] => [cur]
  | c :: s' =>
      if matches_at prev s
      then cur :: re_split_go matches_at (Some c) [c] s'
      else re_split_go matches_at (Some c) (cur ++ [c]) s'
  end.

(** [re.split(r"(?=\b\d+\.\s)", text)] *)
Definition split_sections (text : str) : list str :=
  re_split_go heading_at None [] text.

(** [section.strip().replace("\n", " ")] *)
Definition section_context (section : str) : str :=
  replace (strip section) [LF] " ".

(** The body of the inner loop of [map_terms_to_sections]. *)
Definition note_section (section : str) (term_section_map : dict (list str))
    (term : str) : result (dict (list str)) :=
  if is_in term (lower section) then
    contexts ← subscript term_section_map term;
    if bool_decide (section_context section ∈ contexts)
    then Ok term_section_map
    else Ok (dict_set term (contexts ++ [section_context section])
               term_section_map)
  else Ok term_section_map.

Definition map_terms_to_sections (text : str) (terms : list str)
    : result (dict (list str)) :=
  let sections := split_sections text in
  let term_section_map := foldl (λ m term, dict_set term [] m) [] terms in
  m ← for_each (λ m section, for_each (note_section section) terms m)
        sections term_section_map;
  Ok (filter (λ entry, entry.2 ≠ []) m).

(** The text that [save_term_extraction_results] writes. *)
Definition render_results (terms : list str)
    (term_section_map : dict (list str)) : str :=
  "Extracted Key Terms:" ++ [LF]
  ++ concat ((λ term, "- " ++ term ++ [LF]) <$> terms)
  ++ [LF] ++ "Mapped Sections:" ++ [LF]
  ++ concat ((λ entry,
                [LF] ++ "Term: " ++ entry.1 ++ [LF]
                ++ concat ((λ section,
                              "Section: " ++ section ++ [LF]
                              ++ [LF] ++ "---" ++ [LF]) <$> entry.2))
             <$> term_section_map).

(** [save_term_extraction_results]: the file of the output directory named
    after the document is overwritten. *)
Definition save_term_extraction_results (output_directory : dict str)
    (filename : str) (terms : list str)
    (term_section_map : dict (list str)) : dict str :=
  dict_set (replace filename "_text.txt" "_terms.txt")
           (render_results terms term_section_map) output_directory.

(** One iteration of the loop of [process_files], up to the call of
    [save_term_extraction_results].  [extract_key_terms] is the external
    candidate source (YAKE and the NER model): it returns a set or
    raises. *)
Definition process_document (order : SetOrder)
    (extract_key_terms : str → result (gset str))
    (ground_truth_terms : gset str) (text : str)
    : result (list str * dict (list str)) :=
  extracted_terms ← extract_key_terms text;
  let extracted_terms := ensure_critical_terms order extracted_terms text in
  let ensured_terms :=
    ensure_ground_truth_terms order extracted_terms ground_truth_terms text in
  let relevant_terms := filter_relevant_terms ensured_terms ground_truth_terms in
  term_section_map ← map_terms_to_sections text relevant_terms;
  Ok (relevant_terms, term_section_map).

(** The loop of [process_files]: it has no exception handler, so the first
    exception leaves the loop.  The result is the output directory at the
    end and how the call ended. *)
Fixpoint process_loop (order : SetOrder)
    (extract_key_terms : str → result (gset str))
    (ground_truth_terms : gset str) (texts : dict str)
    (output_directory : dict str) : dict str * result () :=
  match texts with
  | [] => (output_directory, Ok ())
  | (filename, text) :: rest =>
      match process_document order extract_key_terms ground_truth_terms text with
      | Ok (relevant_terms, term_section_map) =>
          process_loop order extract_key_terms ground_truth_terms rest
            (save_term_extraction_results output_directory filename
               relevant_terms term_section_map)
      | Raise e => (output_directory, Raise e)
      end
  end.

(** [process_files].  [load_ner_model] is the outcome of loading the
    tokenizer and the NER model (they are fetched by name): it happens
    once, after the text files have been read and before the first
    document, and when it raises nothing is processed. *)
Definition process_files (order : SetOrder) (load_ner_model : result ())
    (extract_key_terms : str → result (gset str))
    (text_directory output_directory : dict str)
    (ground_truth_terms : gset str) : dict str * result () :=
  let texts := load_text_files text_directory in
  match load_ner_model with
  | Ok _ =>
      process_loop order extract_key_terms ground_truth_terms texts
        output_directory
  | Raise e => (output_directory, Raise e)
  end.

End Preprocess.

(** ** [legaldocs/evaluate.py] *)

Module Evaluate.

Record parser_state : Type := {
  terms : list str;
  term_section_map : dict (list str);
  current_term : option str
}.

(** The body of the loop of [parse_term_extraction_results]. *)
Definition parse_line (st : parser_state) (line : str) : result parser_state :=
  if startswith line "- " then
    let term := lower (strip (drop 2 line)) in
    Ok {| terms := terms st ++ [term];
          term_section_map := dict_set term [] (term_section_map st);
          current_term := Some term |}
  else if startswith line "Term:" then
    part ← item (split line ":") 1;
    Ok {| terms := terms st;
          term_section_map := term_section_map st;
          current_term := Some (lower (strip part)) |}
  else if startswith line "Section:" then
    match current_term st with
    | Some (c :: t) =>
        sections ← subscript (term_section_map st) (c :: t);
        Ok {| terms := terms st;
              term_section_map :=
                dict_set (c :: t) (sections ++ [lower (strip (drop 9 line))])
                  (term_section_map st);
              current_term := current_term st |}
    | _ => Ok st
    end
  else Ok st.

Definition parse_term_extraction_results (content : str)
    : result (list str * dict (list str)) :=
  st ← for_each parse_line (splitlines content)
         {| terms := []; term_section_map := []; current_term := None |};
  Ok (terms st, term_section_map st).

(** [load_terms_and_map]: every [_terms.txt] file of the directory is
    parsed. *)
Definition load_terms_and_map (directory : dict str)
    : result (dict (list str * dict (list str))) :=
  for_each (λ terms_map entry,
              if endswith entry.1 "_terms.txt" then
                parsed ← parse_term_extraction_results entry.2;
                Ok (dict_set entry.1 parsed terms_map)
              else Ok terms_map)
           directory [].

(** [evaluate_precision_recall].  The two label lists have one position
    for every term of [set(ground_truth_terms + extracted_terms)], in the
    iteration order of that set. *)
Definition all_terms (order : SetOrder)
    (ground_truth_terms extracted_terms : list str) : list str :=
  order (list_to_set (ground_truth_terms ++ extracted_terms)).

Definition y_true (order : SetOrder)
    (ground_truth_terms extracted_terms : list str) : list bool :=
  (λ term, bool_decide (term ∈ ground_truth_terms))
    <$> all_terms order ground_truth_terms extracted_terms.

Definition y_pred (order : SetOrder)
    (ground_truth_terms extracted_terms : list str) : list bool :=
  (λ term, bool_decide (term ∈ extracted_terms))
    <$> all_terms order ground_truth_terms extracted_terms.

(** [sum(f(i) for i in range(n))] for a Boolean [f]: [True] counts as
    one. *)
Definition sum_range (n : nat) (f : nat → bool) : nat :=
  sum_list ((λ i, Nat.b2n (f i)) <$> seq 0 n).

(** The counts that [evaluate_precision_recall] logs. *)
Record confusion : Type := {
  true_positives : nat;
  false_positives : nat;
  false_negatives : nat
}.

(** [precision_score] and [recall_score] stand for the functions of
    scikit-learn, called with [zero_division=1].  The result is the
    logged counts and the returned pair.  Both label lists have the
    length of [all_terms], so that every index of the sums is in range. *)
Definition evaluate_precision_recall {score : Type}
    (precision_score recall_score : list bool → list bool → score)
    (order : SetOrder) (ground_truth_terms extracted_terms : list str)
    : confusion * (score * score) :=
  let y_true := y_true order ground_truth_terms extracted_terms in
  let y_pred := y_pred order ground_truth_terms extracted_terms in
  ({| true_positives :=
        sum_range (length y_true) (λ i, (y_true !!! i) && (y_pred !!! i));
      false_positives :=
        sum_range (length y_true)
          (λ i, (y_pred !!! i) && negb (y_true !!! i));
      false_negatives :=
        sum_range (length y_true)
          (λ i, (y_true !!! i) && negb (y_pred !!! i)) |},
   (precision_score y_true y_pred, recall_score y_true y_pred)).

(** The best of the three similarity ratios of fuzzywuzzy (integers from
    0 to 100) over the ground-truth sections of a term. *)
Definition best_similarity
    (ratio partial_ratio token_set_ratio : str → str → nat)
    (ground_truth_sections : list str) (extracted_section : str) : nat :=
  foldl (λ best ground_truth_section,
           Nat.max best
             (Nat.max (ratio extracted_section ground_truth_section)
                (Nat.max
                   (partial_ratio extracted_section ground_truth_section)
                   (token_set_ratio extracted_section
                      ground_truth_section))))
        0 ground_truth_sections.

(** [evaluate_mapping_efficiency]: the pair of [correct_mappings] and
    [total_mappings] when the loops end.  The function returns their
    quotient, and 0 when [total_mappings] is 0. *)
Definition evaluate_mapping_efficiency
    (ratio partial_ratio token_set_ratio : str → str → nat)
    (ground_truth_map extracted_map : dict (list str)) : nat * nat :=
  foldl (λ counts entry,
           match dict_get entry.1 ground_truth_map with
           | Some ground_truth_sections =>
               foldl (λ counts extracted_section,
                        (if bool_decide
                              (75 < best_similarity ratio partial_ratio
                                      token_set_ratio ground_truth_sections
                                      extracted_section)
                         then S counts.1 else counts.1,
                         S counts.2))
                     counts entry.2
           | None => counts
           end)
        (0, 0) extracted_map.

(** [main]: both directories are loaded, then every file of the ground
    truth that also has extracted results is evaluated.  The result is
    what is logged for each of these files. *)
Definition main {score : Type}
    (precision_score recall_score : list bool → list bool → score)
    (ratio partial_ratio token_set_ratio : str → str → nat)
    (order : SetOrder) (ground_truth_directory results_directory : dict str)
    : result (list (str * (confusion * (score * score)) * (nat * nat))) :=
  ground_truth ← load_terms_and_map ground_truth_directory;
  extracted_results ← load_terms_and_map results_directory;
  Ok (omap (M := list)
        (λ entry : str * (list str * dict (list str)),
              match dict_get entry.1 extracted_results with
              | Some extracted =>
                  Some (entry.1,
                        evaluate_precision_recall precision_score
                          recall_score order entry.2.1 extracted.1,
                        evaluate_mapping_efficiency ratio partial_ratio
                          token_set_ratio entry.2.2 extracted.2)
              | None => None
              end)
           ground_truth).

End Evaluate.

(** ** [update.py]: class [TermExtractionUpdater] *)

Module Update.

Record parser_state : Type := {
  terms : gset str;
  term_section_map : dict (list str);
  current_term : option str
}.

(** The body of the loop of [parse_term_extraction_results]; the test
    [if current_term:] fails on [None] and on the empty string. *)
Definition parse_line (st : parser_state) (line : str) : result parser_state :=
  if startswith line "- " then
    let term := strip (drop 2 line) in
    Ok {| terms := {[term]} ∪ terms st;
          term_section_map := dict_set term [] (term_section_map st);
          current_term := Some term |}
  else if startswith line "Term:" then
    part ← item (split line ":") 1;
    Ok {| terms := terms st;
          term_section_map := term_section_map st;
          current_term := Some (strip part) |}
  else if startswith line "Section:" then
    match current_term st with
    | Some (c :: t) =>
        sections ← subscript (term_section_map st) (c :: t);
        Ok {| terms := terms st;
              term_section_map :=
                dict_set (c :: t) (sections ++ [strip (drop 9 line)])
                  (term_section_map st);
              current_term := current_term st |}
    | _ => Ok st
    end
  else Ok st.

(** [parse_term_extraction_results]: the terms are collected in a set and
    returned as [list(terms)]. *)
Definition parse_term_extraction_results (order : SetOrder) (content : str)
    : result (list str * dict (list str)) :=
  st ← for_each parse_line (splitlines content)
         {| terms := ∅; term_section_map := []; current_term := None |};
  Ok (order (terms st), term_section_map st).

(** [load_term_extraction_results]: every [_terms.txt] file of the results
    directory is parsed. *)
Definition load_term_extraction_results (order : SetOrder)
    (results_directory : dict str)
    : result (dict (list str * dict (list str))) :=
  for_each (λ results entry,
              if endswith entry.1 "_terms.txt" then
                parsed ← parse_term_extraction_results order entry.2;
                Ok (dict_set entry.1 parsed results)
              else Ok results)
           results_directory [].

(** [compute_file_hash]: the MD5 digest [md5] of the bytes of the file; a
    file that is gone makes [open] raise. *)
Definition compute_file_hash (md5 : str → str) (results_directory : dict str)
    (file_path : str) : result str :=
  match dict_get file_path results_directory with
  | Some content => Ok (md5 content)
  | None => Raise (FileNotFoundError file_path)
  end.

(** [compute_initial_hashes].  A file path stands for
    [os.path.join(results_directory, filename)], and
    [os.path.basename] gives the file name back: the model uses the file
    name for both. *)
Definition compute_initial_hashes (md5 : str → str)
    (results_directory : dict str) : dict str :=
  foldl (λ file_hashes entry,
           if endswith entry.1 "_terms.txt"
           then dict_set entry.1 (md5 entry.2) file_hashes else file_hashes)
        [] results_directory.

(** What the monitor reports: the log lines of [monitor_changes] and the
    document shown by [display_updated_document]. *)
Inductive event : Type :=
  | DetectedModification (file_path : str)
  | DisplayedDocument (filename : str) (terms : list str)
      (term_section_map : dict (list str))
  | NoActualChange (file_path : str).

(** The fields of a [TermExtractionUpdater] and its log. *)
Record updater : Type := {
  term_extraction_results : dict (list str * dict (list str));
  file_hashes : dict str;
  log : list event
}.

(** [__init__]: the results are loaded, then the hashes computed. *)
Definition init (md5 : str → str) (order : SetOrder)
    (results_directory : dict str) : result updater :=
  results ← load_term_extraction_results order results_directory;
  Ok {| term_extraction_results := results;
        file_hashes := compute_initial_hashes md5 results_directory;
        log := [] |}.

(** The body of the [for] loop of [monitor_changes] for one entry of
    [file_hashes]. *)
Definition poll_file (md5 : str → str) (order : SetOrder)
    (results_directory : dict str) (self : updater) (entry : str * str)
    : result updater :=
  let file_path := entry.1 in
  let old_hash := entry.2 in
  new_hash ← compute_file_hash md5 results_directory file_path;
  if bool_decide (new_hash ≠ old_hash) then
    results ← load_term_extraction_results order results_directory;
    shown ← subscript results file_path;
    Ok {| term_extraction_results := results;
          file_hashes := dict_set file_path new_hash (file_hashes self);
          log := log self ++ [DetectedModification file_path;
                              DisplayedDocument file_path shown.1 shown.2] |}
  else
    Ok {| term_extraction_results := term_extraction_results self;
          file_hashes := file_hashes self;
          log := log self ++ [NoActualChange file_path] |}.

(** One iteration of the [while True] loop of [monitor_changes]: the
    entries of [file_hashes] are visited in order; an entry is only
    assigned to while it is visited, so the hashes read are those of the
    start of the iteration. *)
Definition poll_tick (md5 : str → str) (order : SetOrder)
    (results_directory : dict str) (self : updater) : result updater :=
  for_each (poll_file md5 order results_directory) (file_hashes self) self.

(** [monitor_changes] over the successive states of the results directory,
    one for each iteration of the loop. *)
Definition monitor_changes (md5 : str → str) (order : SetOrder)
    (directory_states : list (dict str)) (self : updater) : result updater :=
  for_each (λ self results_directory,
              poll_tick md5 order results_directory self)
           directory_states self.

(** [display_terms]: the lines that are logged.  A term of the list is
    shown when it is a key of the map. *)
Definition display_terms (terms : list str)
    (term_section_map : dict (list str)) : list str :=
  [("Extracted Key Terms:" : str)]
  ++ ((λ term : str, "- " ++ term)
        <$> filter (λ term, term ∈ dict_keys term_section_map) terms)
  ++ [[LF] ++ "Mapped Sections:"]
  ++ concat ((λ entry : str * list str,
                ([LF] ++ "Term: " ++ entry.1)
                :: ((λ section : str, "Section: " ++ section ++ [LF] ++ "---")
                      <$> entry.2))
             <$> term_section_map).

End Update.

(** ** [pdf2text.py] *)

Module Pdf2text.

(** What [extract_text_from_pdf] logs. *)
Inductive event : Type :=
  | MissingDirectory
  | Extracting (pdf_name : str)
  | SavedText (text_name : str)
  | ExtractionError (pdf_name : str) (e : exn).

(** The text of a document: the text of every page followed by a line
    feed. *)
Definition document_text (pages : list str) : str :=
  foldl (λ text page, text ++ page ++ [LF]) [] pages.

(** [extract_text_from_pdf].  [read_pages] stands for PyMuPDF: from the
    bytes of a PDF file it gives the text of its pages, or raises.  A
    missing PDF directory is [None]; a missing text directory is created
    empty.  Each file is converted inside a [try] whose handler logs the
    exception and goes on. *)
Definition extract_text_from_pdf (read_pages : str → result (list str))
    (pdf_directory : option (dict str)) (text_directory : option (dict str))
    : option (dict str) * list event :=
  match pdf_directory with
  | None => (text_directory, [MissingDirectory])
  | Some pdfs =>
      let (texts, log) :=
        foldl (λ state entry,
                 if endswith entry.1 ".pdf" then
                   match read_pages entry.2 with
                   | Ok pages =>
                       (dict_set (replace entry.1 ".pdf" "_text.txt")
                          (document_text pages) state.1,
                        state.2
                        ++ [Extracting entry.1;
                            SavedText (replace entry.1 ".pdf" "_text.txt")])
                   | Raise e =>
                       (state.1,
                        state.2 ++ [Extracting entry.1;
                                    ExtractionError entry.1 e])
                   end
                 else state)
              (default [] text_directory, []) pdfs in
      (Some texts, log)
  end.

End Pdf2text.

(** ** [legaldocs/main.py] *)

Module Main.

(** [preprocess].  The four directories are created when missing
    ([os.makedirs] with [exist_ok]), so that each of them is a listing,
    empty or not.  The PDF files are converted, the ground-truth terms
    loaded and the text files processed.  The result is the text
    directory, the results directory, the log of the conversion and the
    outcome of [process_files].  The conversion finds the PDF directory,
    so that it always gives a text directory back. *)
Definition preprocess (read_pages : str → result (list str))
    (order : SetOrder) (load_ner_model : result ())
    (extract_key_terms : str → result (gset str))
    (pdf_directory text_directory results_directory
       ground_truth_directory : dict str)
    : dict str * dict str * list Pdf2text.event * result () :=
  let (texts, log) :=
    Pdf2text.extract_text_from_pdf read_pages (Some pdf_directory)
      (Some text_directory) in
  match texts with
  | Some texts =>
      let ground_truth_terms :=
        Preprocess.load_ground_truth_terms ground_truth_directory in
      let (written, outcome) :=
        Preprocess.process_files order load_ner_model extract_key_terms
          texts results_directory ground_truth_terms in
      (texts, written, log, outcome)
  | None =>
      (text_directory, results_directory, log,
       Raise (FileNotFoundError "extracted_texts"))
  end.

End Main.

(** ** Definitions used to state the properties *)

(** [t] occurs in [s] as a contiguous substring. *)
Definition occurs_in (t s : str) : Prop := ∃ pre post, s = pre ++ t ++ post.

(** A list without its repetitions, every element at the place of its
    first occurrence; [seen] holds the elements met so far. *)
Fixpoint first_occurrences_go (seen : list str) (l : list str) : list str :=
  match l with
  | [] => []
  | x :: l' =>
      if bool_decide (x ∈ seen) then first_occurrences_go seen l'
      else x :: first_occurrences_go (x :: seen) l'
  end.
Definition first_occurrences (l : list str) : list str :=
  first_occurrences_go [] l.

(** The section list of a term as the specification words it: the trimmed
    text, newlines replaced by spaces, of every section in which the term
    occurs once the section is lower-cased, without repetitions, in the
    order of first occurrence. *)
Definition contexts_among (sections : list str) (term : str) : list str :=
  first_occurrences
    (Preprocess.section_context
       <$> filter (λ section, is_in term (lower section) = true) sections).
Definition matching_contexts (text term : str) : list str :=
  contexts_among (Preprocess.split_sections text) term.

(** What one section does to the section list of one term. *)
Definition note_context (section term : str) (contexts : list str) : list str :=
  if is_in term (lower section)
  then if bool_decide (Preprocess.section_context section ∈ contexts)
       then contexts
       else contexts ++ [Preprocess.section_context section]
  else contexts.

(** The state of the loops of [map_terms_to_sections]: the keys are the
    terms and the section list of a term is given by [f]. *)
Definition tracks (terms : list str) (f : str → list str)
    (m : dict (list str)) : Prop :=
  NoDup (dict_keys m)
  ∧ ∀ t, dict_get t m = if decide (t ∈ terms) then Some (f t) else None.

(** A newline becomes a space, any other character stays. *)
Definition newline_to_space (c : ascii) : ascii :=
  if bool_decide (c = LF) then " "%char else c.

(** A string that [splitlines] keeps on one line. *)
Definition one_line (s : str) : Prop := Forall (λ c, is_linebreak c = false) s.

(** A text whose only line boundary is the line feed. *)
Definition only_line_feeds (text : str) : Prop :=
  Forall (λ c, is_linebreak c = true → c = LF) text.

(** A term that the record format can carry: not empty, on one line,
    trimmed and without a colon. *)
Definition storable_term (term : str) : Prop :=
  term ≠ [] ∧ one_line term ∧ strip term = term ∧ ":"%char ∉ term.

(** An entry that the record format can carry. *)
Definition storable_entry (terms : list str) (entry : str * list str) : Prop :=
  entry.1 ∈ terms ∧ storable_term entry.1
  ∧ Forall (λ section, one_line section ∧ strip section = section) entry.2.

(** The lines of a text that ends every line with a line feed. *)
Definition unlines (lines : list str) : str :=
  concat ((λ line, line ++ [LF]) <$> lines).

(** The lines written by [save_term_extraction_results]. *)
Definition section_lines (section : str) : list str :=
  [("Section: " : str) ++ section; []; ("---" : str)].
Definition entry_lines (entry : str * list str) : list str :=
  [[]; ("Term: " : str) ++ entry.1] ++ concat (section_lines <$> entry.2).
Definition record_lines (terms : list str) (term_section_map : dict (list str))
    : list str :=
  [("Extracted Key Terms:" : str)] ++ ((λ term, ("- " : str) ++ term) <$> terms)
  ++ [[]; ("Mapped Sections:" : str)] ++ concat (entry_lines <$> term_section_map).

(** ** Inputs of the examples *)

(** The text of the end-to-end scenario of the specification. *)
Definition scenario_text : str :=
  "1. Definitions" ++ [LF] ++ "Confidentiality means ..." ++ [LF]
  ++ "2. Term" ++ [LF] ++ "The term of this agreement is 3 years.".
Definition scenario_terms : list str :=
  [("confidentiality" : str); ("term" : str)].

(** A text that breaks the line inside a phrase, and a candidate source
    that proposes the phrase with a space, as a keyword extractor working
    on tokens does. *)
Definition broken_phrase_text : str :=
  "The Security" ++ [LF] ++ "Deposit is due.".
Definition deposit_terms : gset str := {[ ("security deposit" : str) ]}.
Definition proposing_deposit (text : str) : result (gset str) :=
  Ok deposit_terms.

(** A document with two terms, both proposed and both in the ground
    truth. *)
Definition two_terms : gset str := {[ ("lease" : str); ("tenant" : str) ]}.
Definition proposing_two_terms (text : str) : result (gset str) :=
  Ok two_terms.
Definition lease_directory : dict str :=
  [(("lease_text.txt" : str), ("The tenant signs the lease." : str))].

(** A record file with a [Term:] line for a term that no bullet line
    registered. *)
Definition unlisted_term_record : str :=
  "Term: foo" ++ [LF] ++ "Section: bar" ++ [LF].

(** A candidate source that fails on the document ["bad"] and proposes
    nothing for any other. *)
Definition failing_on_bad (text : str) : result (gset str) :=
  if bool_decide (text = ("bad" : str))
  then Raise (ExternalError "candidate generation failed") else Ok ∅.

(** A stand-in for the MD5 digest in the examples: the content itself. *)
Definition content_digest (content : str) : str := content.

(** A results directory with one record file, the monitor once it has
    been started on it, and the directory after the file has been edited
    into [unlisted_term_record]. *)
Definition watched_directory : dict str :=
  [(("lease_terms.txt" : str), "- lease" ++ [LF])].
Definition watching : Update.updater :=
  {| Update.term_extraction_results :=
       [(("lease_terms.txt" : str),
         ([("lease" : str)], [(("lease" : str), [])]))];
     Update.file_hashes := [(("lease_terms.txt" : str), "- lease" ++ [LF])];
     Update.log := [] |}.
Definition edited_directory : dict str :=
  [(("lease_terms.txt" : str), unlisted_term_record)].

(** Whether a section starts with a heading: digits, a period and a
    whitespace character. *)
Definition starts_with_heading (section : str) : bool :=
  match section with
  | c :: rest => isdecimal c && Preprocess.digits_dot_space rest
  | [] => false
  end.

(** The current term of a parser is a key of its map, when there is
    one. *)
Definition current_is_key (current : option str) (m : dict (list str)) : Prop :=
  match current with Some term => term ∈ dict_keys m | None => True end.

(** A line that the parsers do not recognize. *)
Definition unrecognized (line : str) : Prop :=
  startswith line "- " = false ∧ startswith line "Term:" = false
  ∧ startswith line "Section:" = false.

(** A string none of whose proper prefixes is also a suffix: two
    occurrences of it in a text cannot overlap. *)
Definition unbordered (old : str) : Prop :=
  ∀ k, 0 < k < length old → take k old ≠ drop (length old - k) old.

(** The results directory after a term has been added by hand to the
    watched record. *)
Definition grown_directory : dict str :=
  [(("lease_terms.txt" : str), "- lease" ++ [LF] ++ "- tenant" ++ [LF])].

(** A ground-truth directory with the terms of one document. *)
Definition lease_ground_truth_directory : dict str :=
  [(("lease_terms.txt" : str), "- lease" ++ [LF] ++ "- tenant" ++ [LF])].

(** A results directory in which a second record file has appeared. *)
Definition joined_directory : dict str :=
  [(("lease_terms.txt" : str), "- lease" ++ [LF]);
   (("rent_terms.txt" : str), "- rent" ++ [LF])].

(** A stand-in for PyMuPDF in the examples: one page, whose text is the
    content of the file. *)
Definition one_page (bytes : str) : result (list str) := Ok [bytes].

(** A PDF directory with one document. *)
Definition lease_pdf_directory : dict str :=
  [(("lease.pdf" : str), ("The tenant signs the lease." : str))].



(** * Properties *)

Import Preprocess.

(** ** Characters and strings *)

Section Strings.

Lemma startswith_spec (s p : str) : startswith s p = true ↔ ∃ rest, s = p ++ rest.
Proof.
  revert s; induction p as [|a p IH]; intros s; simpl.
  - split; [intros _; by exists s | done].
  - destruct s as [|b s]; [split; [done | intros [? ?]; done] |].
    destruct (Ascii.eqb_spec a b) as [->|Hne].
    + rewrite IH. split; intros [rest H]; exists rest; simplify_eq; done.
    + split; [done | intros [rest H]; simplify_eq].
Qed.

Lemma is_in_spec (t s : str) : is_in t s = true ↔ occurs_in t s.
Proof.
  unfold occurs_in. induction s as [|c s IH]; simpl.
  - rewrite orb_false_r, startswith_spec. split.
    + intros [rest H]. exists [], rest. done.
    + intros (pre & post & H). symmetry in H.
      apply app_eq_nil in H as [-> H]. exists post. done.
  - rewrite orb_true_iff, startswith_spec, IH. split.
    + intros [[rest H] | (pre & post & H)].
      * exists [], rest. done.
      * exists (c :: pre), post. by rewrite H.
    + intros (pre & post & H). destruct pre as [|c' pre].
      * left. exists post. done.
      * right. simplify_eq/=. eauto.
Qed.

Lemma is_in_nil (s : str) : is_in [] s = true.
Proof. apply is_in_spec. exists [], s. done. Qed.

Lemma isspace_lower_char c : isspace (lower_char c) = isspace c.
Proof. by destruct c as [[] [] [] [] [] [] [] []]. Qed.

Lemma lower_char_newline_to_space c :
  lower_char (newline_to_space c) = newline_to_space (lower_char c).
Proof. by destruct c as [[] [] [] [] [] [] [] []]. Qed.

Lemma lower_app (s1 s2 : str) : lower (s1 ++ s2) = lower s1 ++ lower s2.
Proof. apply fmap_app. Qed.

Lemma replace_newline (s : str) :
  replace s [LF] " " = newline_to_space <$> s.
Proof.
  unfold replace. induction s as [|c s IH]; [done|].
  cbn [replace_go startswith fmap list_fmap]. unfold newline_to_space at 1.
  destruct (Ascii.eqb_spec LF c) as [<-|Hne].
  - rewrite bool_decide_eq_true_2 by done. cbn. f_equal. exact IH.
  - rewrite bool_decide_eq_false_2 by done. f_equal. exact IH.
Qed.

Lemma newline_to_space_id (s : str) : LF ∉ s → newline_to_space <$> s = s.
Proof.
  induction s as [|c s IH]; [done|]. intros Hnot.
  apply not_elem_of_cons in Hnot as [Hc Hs]. cbn. rewrite (IH Hs).
  unfold newline_to_space. by rewrite bool_decide_eq_false_2.
Qed.

Lemma lstrip_keeps (p u q : str) c :
  isspace c = false → ∃ p', lstrip (p ++ c :: u ++ q) = p' ++ c :: u ++ q.
Proof.
  intros Hc. induction p as [|a p [p' IH]]; simpl.
  - exists []. by rewrite Hc.
  - destruct (isspace a); [by exists p' | by exists (a :: p)].
Qed.

Lemma rstrip_cons_nonspace c (q : str) :
  isspace c = false → ∃ q', rstrip (c :: q) = c :: q'.
Proof. intros Hc. simpl. rewrite Hc. destruct (rstrip q); eauto. Qed.

Lemma rstrip_keeps (p q : str) c :
  isspace c = false → ∃ q', rstrip (p ++ c :: q) = p ++ c :: q'.
Proof.
  intros Hc. induction p as [|a p [q' IH]].
  - by apply rstrip_cons_nonspace.
  - exists q'. cbn [app rstrip]. rewrite IH. by destruct p.
Qed.

End Strings.

(** ** Section splitting *)

Lemma re_split_go_concat {A : Type} (matches_at : option A → list A → bool)
    prev (cur s : list A) :
  concat (re_split_go matches_at prev cur s) = cur ++ s.
Proof.
  revert prev cur. induction s as [|c s IH]; intros prev cur.
  - cbn. by rewrite !app_nil_r.
  - cbn [re_split_go].
    destruct (matches_at prev (c :: s)); cbn [concat]; rewrite IH.
    + done.
    + by rewrite <- app_assoc.
Qed.

(** C3. Concatenating, in order, the sections that the split of
    [map_terms_to_sections] produces gives back the text: no character is
    lost or duplicated at a boundary. *)
Theorem sections_reconstruct_text (text : str) :
  concat (Preprocess.split_sections text) = text.
Proof. apply (re_split_go_concat heading_at). Qed.

(** ** Dictionaries *)

Section Dictionaries.
Context {V : Type}.
Implicit Types (d : dict V) (k : str) (v : V).

Lemma dict_get_set k k' v d :
  dict_get k' (dict_set k v d) = if decide (k' = k) then Some v else dict_get k' d.
Proof.
  induction d as [|[k0 v0] d IH]; simpl.
  - by destruct (decide (k' = k)).
  - destruct (decide (k = k0)) as [->|Hne]; simpl.
    + by destruct (decide (k' = k0)).
    + rewrite IH. destruct (decide (k' = k0)) as [->|]; [|done].
      by rewrite decide_False.
Qed.

Lemma dict_get_None k d : dict_get k d = None ↔ k ∉ dict_keys d.
Proof.
  unfold dict_keys. induction d as [|[k0 v0] d IH]; simpl.
  - split; [intros _; apply not_elem_of_nil | done].
  - rewrite not_elem_of_cons. destruct (decide (k = k0)); [|tauto].
    split; [done | tauto].
Qed.

Lemma dict_get_is_Some k d : is_Some (dict_get k d) ↔ k ∈ dict_keys d.
Proof.
  rewrite <- not_eq_None_Some, dict_get_None.
  split; [apply dec_stable | tauto].
Qed.

Lemma dict_keys_set k v d :
  dict_keys (dict_set k v d)
  = if decide (k ∈ dict_keys d) then dict_keys d else dict_keys d ++ [k].
Proof.
  unfold dict_keys. induction d as [|[k0 v0] d IH]; cbn [dict_set fmap list_fmap].
  - case_decide as Hin; [by apply elem_of_nil in Hin | done].
  - destruct (decide (k = k0)) as [->|Hne]; cbn [fmap list_fmap fst].
    + rewrite decide_True; [done | left].
    + rewrite IH. destruct (decide (k ∈ d.*1)) as [Hin|Hout].
      * rewrite decide_True; [done | by right].
      * rewrite decide_False; [done |]. rewrite elem_of_cons. tauto.
Qed.

Lemma dict_set_NoDup k v d :
  NoDup (dict_keys d) → NoDup (dict_keys (dict_set k v d)).
Proof.
  intros Hd. rewrite dict_keys_set. case_decide; [done|].
  apply NoDup_app. split_and!; [done | | apply NoDup_singleton].
  intros x Hx ->%list_elem_of_singleton. done.
Qed.

Lemma dict_get_Some_elem k v d :
  NoDup (dict_keys d) → dict_get k d = Some v ↔ (k, v) ∈ d.
Proof.
  unfold dict_keys. induction d as [|[k0 v0] d IH]; simpl; intros Hd.
  - split; [done | by intros ?%elem_of_nil].
  - apply NoDup_cons in Hd as [Hk0 Hd]. rewrite elem_of_cons.
    destruct (decide (k = k0)) as [->|Hne].
    + split; [left; congruence |]. intros [?|Hin]; [congruence|].
      destruct Hk0. apply list_elem_of_fmap. by exists (k0, v).
    + rewrite (IH Hd). split; [by right|]. intros [?|?]; [congruence | done].
Qed.

Lemma dict_get_filter (P : str * V → Prop) `{!∀ x, Decision (P x)} k d :
  NoDup (dict_keys d) →
  dict_get k (filter P d)
  = v ← dict_get k d; if decide (P (k, v)) then Some v else None.
Proof.
  unfold dict_keys. induction d as [|[k0 v0] d IH]; [done|]. intros Hd.
  apply NoDup_cons in Hd as [Hk0 Hd]. rewrite filter_cons. cbn [dict_get].
  destruct (decide (k = k0)) as [->|Hne]; cbn.
  - destruct (decide (P (k0, v0))); cbn.
    + by rewrite decide_True.
    + rewrite (IH Hd).
      assert (dict_get k0 d = None) as -> by (by apply dict_get_None). done.
  - destruct (decide (P (k0, v0))); cbn; [rewrite decide_False by done|];
      apply (IH Hd).
Qed.

Lemma filter_keys_NoDup (P : str * V → Prop) `{!∀ x, Decision (P x)} d :
  NoDup (dict_keys d) → NoDup (dict_keys (filter P d)).
Proof.
  unfold dict_keys. intros Hd.
  eapply sublist_NoDup; [exact Hd | apply fmap_sublist, sublist_filter].
Qed.

End Dictionaries.

(** ** Section mapping *)

Lemma first_occurrences_go_snoc (seen l : list str) x :
  first_occurrences_go seen (l ++ [x])
  = first_occurrences_go seen l ++ (if decide (x ∈ seen ++ l) then [] else [x]).
Proof.
  revert seen. induction l as [|y l IH]; intros seen; cbn.
  - rewrite app_nil_r. case_bool_decide; by case_decide.
  - case_bool_decide as Hy.
    + rewrite IH. f_equal. apply decide_ext.
      rewrite !elem_of_app, elem_of_cons. naive_solver.
    + cbn. rewrite IH. do 2 f_equal. apply decide_ext.
      rewrite !elem_of_app, !elem_of_cons. naive_solver.
Qed.

Lemma elem_of_first_occurrences_go (seen l : list str) x :
  x ∈ first_occurrences_go seen l ↔ x ∈ l ∧ x ∉ seen.
Proof.
  revert seen. induction l as [|y l IH]; intros seen; cbn.
  - rewrite elem_of_nil. tauto.
  - case_bool_decide as Hy.
    + rewrite IH, elem_of_cons. naive_solver.
    + rewrite !elem_of_cons, IH, not_elem_of_cons.
      destruct (decide (x = y)); naive_solver.
Qed.

Lemma elem_of_first_occurrences (l : list str) x :
  x ∈ first_occurrences l ↔ x ∈ l.
Proof.
  unfold first_occurrences. rewrite elem_of_first_occurrences_go.
  split; [tauto | split; [done | apply not_elem_of_nil]].
Qed.


Lemma first_occurrences_snoc (l : list str) x :
  first_occurrences (l ++ [x])
  = first_occurrences l ++ (if decide (x ∈ l) then [] else [x]).
Proof. apply first_occurrences_go_snoc. Qed.

Lemma note_context_contexts_among (sections : list str) section term :
  note_context section term (contexts_among sections term)
  = contexts_among (sections ++ [section]) term.
Proof.
  unfold note_context, contexts_among. rewrite filter_app, fmap_app.
  rewrite filter_cons, filter_nil.
  destruct (is_in term (lower section)) eqn:Hin.
  - rewrite decide_True by done. cbn [fmap list_fmap].
    rewrite first_occurrences_snoc.
    case_bool_decide as Hc; rewrite elem_of_first_occurrences in Hc.
    + rewrite decide_True by done. by rewrite app_nil_r.
    + by rewrite decide_False.
  - rewrite decide_False by done. cbn. by rewrite app_nil_r.
Qed.

Lemma note_context_idem section term contexts :
  note_context section term (note_context section term contexts)
  = note_context section term contexts.
Proof.
  unfold note_context. destruct (is_in term (lower section)); [|done].
  destruct (bool_decide (section_context section ∈ contexts)) eqn:Hc.
  - by rewrite Hc.
  - rewrite bool_decide_eq_true_2; [done|]. apply elem_of_app. right. left.
Qed.

Lemma tracks_ext terms f g m :
  (∀ t, t ∈ terms → f t = g t) → tracks terms f m → tracks terms g m.
Proof.
  intros Hfg [Hnd Hget]. split; [done|]. intros t. rewrite Hget.
  case_decide; [by rewrite Hfg | done].
Qed.

Lemma init_tracks (terms : list str) :
  tracks terms (λ _, []) (foldl (λ m term, dict_set term [] m) [] terms).
Proof.
  assert (∀ known m, tracks known (λ _, []) m →
            tracks (known ++ terms) (λ _, [])
              (foldl (λ m term, dict_set term [] m) m terms)) as Hgen.
  { induction terms as [|t0 terms IH]; intros known m Hm; cbn.
    - by rewrite app_nil_r.
    - change (known ++ t0 :: terms) with (known ++ [t0] ++ terms).
      rewrite (assoc_L (++) known [t0] terms). apply IH.
      destruct Hm as [Hnd Hget]. split; [by apply dict_set_NoDup|].
      intros t. rewrite dict_get_set, Hget.
      destruct (decide (t = t0)) as [->|Hne].
      + rewrite decide_True; [done|]. apply elem_of_app. right. left.
      + apply option_eq. intros x. repeat case_decide; try done.
        * exfalso. set_solver.
        * exfalso. set_solver. }
  apply (Hgen [] []). split; [constructor|]. intros t.
  rewrite decide_False; [done | apply not_elem_of_nil].
Qed.

Lemma note_section_tracks section terms f m term :
  tracks terms f m → term ∈ terms →
  ∃ m', note_section section m term = Ok m'
        ∧ tracks terms
            (λ t, if decide (t = term) then note_context section t (f t)
                  else f t) m'.
Proof.
  intros [Hnd Hget] Hterm. unfold note_section, note_context.
  assert (subscript m term = Ok (f term)) as Hsub.
  { unfold subscript. by rewrite Hget, decide_True. }
  destruct (is_in term (lower section)) eqn:Hin.
  - rewrite Hsub. cbn. case_bool_decide as Hc.
    + exists m. split; [done|]. split; [done|]. intros t. rewrite Hget.
      case_decide; [|done]. case_decide as Ht; [|done]. subst t.
      by rewrite Hin, bool_decide_eq_true_2.
    + eexists. split; [done|]. split; [by apply dict_set_NoDup|].
      intros t. rewrite dict_get_set. destruct (decide (t = term)) as [->|Hne].
      * by rewrite decide_True, Hin, bool_decide_eq_false_2.
      * apply Hget.
  - exists m. split; [done|]. split; [done|]. intros t. rewrite Hget.
    case_decide; [|done]. case_decide as Ht; [|done]. subst t. by rewrite Hin.
Qed.

Lemma inner_loop_tracks section terms ts f m :
  tracks terms f m → ts ⊆ terms →
  ∃ m', for_each (note_section section) ts m = Ok m'
        ∧ tracks terms
            (λ t, if decide (t ∈ ts) then note_context section t (f t)
                  else f t) m'.
Proof.
  revert f m. induction ts as [|t0 ts IH]; intros f m Hm Hts; cbn.
  - exists m. split; [done|]. eapply tracks_ext; [|exact Hm].
    intros t _. rewrite decide_False; [done | apply not_elem_of_nil].
  - destruct (note_section_tracks section terms f m t0 Hm) as (m1 & -> & Hm1).
    { apply Hts. left. }
    cbn. destruct (IH _ m1 Hm1) as (m' & -> & Hm').
    { intros t Ht. apply Hts. by right. }
    exists m'. split; [done|]. eapply tracks_ext; [|exact Hm'].
    intros t _. cbn. destruct (decide (t = t0)) as [->|Hne].
    + rewrite (decide_True (P := t0 ∈ t0 :: ts)) by left.
      case_decide; [apply note_context_idem | done].
    + apply decide_ext. rewrite elem_of_cons. tauto.
Qed.

Lemma outer_loop_tracks terms (sections done : list str) m :
  tracks terms (contexts_among done) m →
  ∃ m', for_each (λ m section, for_each (note_section section) terms m)
          sections m = Ok m'
        ∧ tracks terms (contexts_among (done ++ sections)) m'.
Proof.
  revert done m. induction sections as [|s sections IH]; intros done m Hm; cbn.
  - exists m. by rewrite app_nil_r.
  - destruct (inner_loop_tracks s terms terms _ m Hm) as (m1 & -> & Hm1); [done|].
    cbn. change (done ++ s :: sections) with (done ++ [s] ++ sections).
    rewrite (assoc_L (++) done [s] sections). apply IH.
    eapply tracks_ext; [|exact Hm1]. intros t Ht. cbn.
    rewrite decide_True by done. apply note_context_contexts_among.
Qed.

Lemma mapped_record (text : str) (terms : list str) :
  ∃ record,
    map_terms_to_sections text terms = Ok record
    ∧ NoDup (dict_keys record)
    ∧ ∀ term,
        dict_get term record
        = if decide (term ∈ terms ∧ matching_contexts text term ≠ [])
          then Some (matching_contexts text term) else None.
Proof.
  unfold map_terms_to_sections.
  destruct (outer_loop_tracks terms (split_sections text) [] _
              (init_tracks terms)) as (m & -> & Hnd & Hget).
  cbn. eexists. split; [done|]. split.
  - by apply filter_keys_NoDup.
  - intros term. rewrite dict_get_filter, Hget by done.
    unfold matching_contexts. destruct (decide (term ∈ terms)) as [Hin|Hout]; cbn.
    + apply decide_ext. tauto.
    + rewrite decide_False; [done | tauto].
Qed.

Lemma elem_of_matching_contexts (text term context : str) :
  context ∈ matching_contexts text term
  ↔ ∃ section, section ∈ split_sections text
               ∧ is_in term (lower section) = true
               ∧ context = section_context section.
Proof.
  unfold matching_contexts, contexts_among.
  rewrite elem_of_first_occurrences, list_elem_of_fmap.
  setoid_rewrite list_elem_of_filter. naive_solver.
Qed.


(** ** Term curation *)

Lemma elem_of_set_iter (order : SetOrder) (s : gset str) x :
  x ∈ order s ↔ x ∈ s.
Proof. by rewrite (set_iter_perm order s), elem_of_elements. Qed.

Lemma set_iter_NoDup (order : SetOrder) (s : gset str) : NoDup (order s).
Proof. rewrite (set_iter_perm order s). apply NoDup_elements. Qed.

Lemma elem_of_add_present (present : str → bool) (ts : list str)
    (s : gset str) x :
  x ∈ foldl (λ extracted term,
               if present term
               then if bool_decide (term ∈ extracted) then extracted
                    else {[term]} ∪ extracted
               else extracted) s ts
  ↔ x ∈ s ∨ (x ∈ ts ∧ present x = true).
Proof.
  revert s. induction ts as [|t ts IH]; intros s; cbn.
  - rewrite elem_of_nil. tauto.
  - rewrite IH, elem_of_cons. destruct (present t) eqn:Ht.
    + case_bool_decide; set_solver.
    + split; [tauto|]. intros [?|[[->|?] ?]]; [tauto | congruence | tauto].
Qed.

Lemma elem_of_ensure_critical_terms (order : SetOrder)
    (candidates : gset str) (text term : str) :
  term ∈ ensure_critical_terms order candidates text
  ↔ term ∈ candidates
    ∨ (term ∈ critical_terms ∧ is_in term (lower text) = true).
Proof.
  unfold ensure_critical_terms. rewrite elem_of_set_iter.
  apply (elem_of_add_present (λ t, is_in t (lower text))).
Qed.

(** C4. [ensure_critical_terms] returns, without repetition, the
    candidates together with those of the three critical terms
    "confidentiality", "security deposit" and "employee's duties" that
    occur in the lower-cased text, and nothing else: each of the three is
    added exactly when it occurs in the text, whatever the case of the
    letters there, and is not a candidate yet.  For a text with
    "confidentiality" and without "security deposit", the result has
    "confidentiality", and has "security deposit" only if it was a
    candidate. *)
Theorem ensure_critical_terms_gated_by_text (order : SetOrder)
    (candidates : gset str) (text : str) :
  let result := ensure_critical_terms order candidates text in
  NoDup result
  ∧ (∀ term,
       term ∈ result
       ↔ term ∈ candidates
         ∨ (term ∈ [("confidentiality" : str); ("security deposit" : str);
                    ("employee's duties" : str)]
            ∧ is_in term (lower text) = true))
  ∧ (∀ term,
       (term ∈ result ∧ term ∉ candidates)
       ↔ (term ∈ [("confidentiality" : str); ("security deposit" : str);
                  ("employee's duties" : str)]
          ∧ is_in term (lower text) = true
          ∧ term ∉ candidates))
  ∧ (("confidentiality" : str) ∈ result
     ↔ ("confidentiality" : str) ∈ candidates
       ∨ is_in "confidentiality" (lower text) = true)
  ∧ (("security deposit" : str) ∈ result
     ↔ ("security deposit" : str) ∈ candidates
       ∨ is_in "security deposit" (lower text) = true)
  ∧ (("employee's duties" : str) ∈ result
     ↔ ("employee's duties" : str) ∈ candidates
       ∨ is_in "employee's duties" (lower text) = true)
  ∧ (is_in "confidentiality" (lower text) = true →
     is_in "security deposit" (lower text) = false →
     ("confidentiality" : str) ∈ result
     ∧ (("security deposit" : str) ∈ result →
        ("security deposit" : str) ∈ candidates)).
Proof.
  cbn zeta.
  assert (∀ term,
            term ∈ ensure_critical_terms order candidates text
            ↔ term ∈ candidates
              ∨ (term ∈ [("confidentiality" : str);
                         ("security deposit" : str);
                         ("employee's duties" : str)]
                 ∧ is_in term (lower text) = true)) as Hmembers.
  { intros term. apply elem_of_ensure_critical_terms. }
  split_and!.
  - apply set_iter_NoDup.
  - exact Hmembers.
  - intros term. rewrite Hmembers. tauto.
  - rewrite Hmembers. split; [tauto|]. intros [?|?]; [by left|].
    right. split; [left | done].
  - rewrite Hmembers. split; [tauto|]. intros [?|?]; [by left|].
    right. split; [right; left | done].
  - rewrite Hmembers. split; [tauto|]. intros [?|?]; [by left|].
    right. split; [right; right; left | done].
  - intros Hconf Hdep. rewrite !Hmembers. split.
    + right. split; [left | done].
    + intros [?|[_ ?]]; [done | congruence].
Qed.

Lemma elem_of_ensure_ground_truth_terms (order : SetOrder)
    (extracted : list str) (ground_truth : gset str) (text : str) x :
  x ∈ ensure_ground_truth_terms order extracted ground_truth text
  ↔ x ∈ extracted ∨ (x ∈ ground_truth ∧ is_in x (lower text) = true).
Proof.
  unfold ensure_ground_truth_terms.
  rewrite <- (elem_of_set_iter order ground_truth).
  generalize (order ground_truth) as ts. intros ts.
  revert extracted. induction ts as [|t ts IH]; intros extracted; cbn.
  - rewrite elem_of_nil. tauto.
  - rewrite IH, elem_of_cons. destruct (is_in t (lower text)) eqn:Ht.
    + case_bool_decide; [|rewrite elem_of_app, list_elem_of_singleton];
        naive_solver.
    + split; [tauto|]. intros [?|[[->|?] ?]]; [tauto | congruence | tauto].
Qed.

Lemma ensure_ground_truth_terms_NoDup (order : SetOrder)
    (extracted : list str) (ground_truth : gset str) (text : str) :
  NoDup extracted →
  NoDup (ensure_ground_truth_terms order extracted ground_truth text).
Proof.
  unfold ensure_ground_truth_terms.
  generalize (order ground_truth) as ts. intros ts.
  revert extracted. induction ts as [|t ts IH]; intros extracted Hnd; cbn.
  - done.
  - apply IH. destruct (is_in t (lower text)); [|done].
    case_bool_decide as Hin; [done|].
    apply NoDup_app. split_and!; [done | | apply NoDup_singleton].
    intros x Hx ->%list_elem_of_singleton. done.
Qed.

Lemma elem_of_filter_relevant_terms (terms : list str)
    (ground_truth : gset str) x :
  x ∈ filter_relevant_terms terms ground_truth ↔ x ∈ ground_truth ∧ x ∈ terms.
Proof. unfold filter_relevant_terms. by rewrite list_elem_of_filter. Qed.

Lemma mapped_keys_among_terms (text : str) (terms : list str)
    (record : dict (list str)) (term : str) :
  map_terms_to_sections text terms = Ok record →
  term ∈ dict_keys record → term ∈ terms.
Proof.
  intros Hrun Hkey.
  destruct (mapped_record text terms) as (record' & Hrun' & _ & Hget).
  rewrite Hrun in Hrun'. injection Hrun' as <-.
  apply dict_get_is_Some in Hkey as [contexts Hsome].
  rewrite Hget in Hsome. case_decide as Hin; [|done]. by destruct Hin.
Qed.

(** C2. Every term that [filter_relevant_terms] keeps is in the ground
    truth, whatever list of terms the candidates led to; hence every key
    of the record that [map_terms_to_sections] returns for the kept terms
    is in the ground truth.  In the pipeline: for every candidate source,
    a document either fails in the candidate source or gets relevant terms
    and a record within the ground truth. *)
Theorem relevant_terms_within_ground_truth (text : str) (terms : list str)
    (ground_truth : gset str) :
  (∀ term, term ∈ filter_relevant_terms terms ground_truth →
           term ∈ ground_truth)
  ∧ (∃ record,
       map_terms_to_sections text (filter_relevant_terms terms ground_truth)
       = Ok record
       ∧ ∀ term, term ∈ dict_keys record → term ∈ ground_truth)
  ∧ ∀ (order : SetOrder) (extract_key_terms : str → result (gset str)),
      match process_document order extract_key_terms ground_truth text with
      | Ok (relevant_terms, record) =>
          (∀ term, term ∈ relevant_terms → term ∈ ground_truth)
          ∧ (∀ term, term ∈ dict_keys record → term ∈ ground_truth)
      | Raise e => extract_key_terms text = Raise e
      end.
Proof.
  assert (∀ l term, term ∈ filter_relevant_terms l ground_truth →
                    term ∈ ground_truth) as Hfilter.
  { intros l term Hterm.
    by apply elem_of_filter_relevant_terms in Hterm as [? _]. }
  split_and!.
  - apply Hfilter.
  - destruct (mapped_record text (filter_relevant_terms terms ground_truth))
      as (record & Hrun & _).
    exists record. split; [done|]. intros term Hkey.
    eapply Hfilter, mapped_keys_among_terms; done.
  - intros order extract_key_terms. unfold process_document.
    destruct (extract_key_terms text) as [candidates|e]; [|done]. cbn.
    set (relevant := filter_relevant_terms _ _).
    destruct (mapped_record text relevant) as (record & Hrun & _).
    rewrite Hrun. cbn. split; [apply Hfilter|]. intros term Hkey.
    eapply Hfilter, mapped_keys_among_terms; done.
Qed.

(** ** Failures *)

(** The record that the pipeline itself saves for a term with a colon is
    one of these files: the [Term:] line is cut at the colon of the
    term. *)
Lemma saved_term_with_colon_raises (order : SetOrder) :
  Update.parse_term_extraction_results order
    (render_results [("rent: due date" : str)]
       [(("rent: due date" : str), [("The rent: due date is May 1." : str)])])
  = Raise (KeyError "rent").
Proof. reflexivity. Qed.

(** C5. A record file in which a [Term:] line names a term that no bullet
    line registered makes both parsers raise [KeyError] at the [Section:]
    line that follows, instead of ignoring it. *)
Theorem parsers_raise_on_unlisted_term (order : SetOrder) :
  Update.parse_term_extraction_results order unlisted_term_record
  = Raise (KeyError "foo")
  ∧ Evaluate.parse_term_extraction_results unlisted_term_record
    = Raise (KeyError "foo").
Proof. split; reflexivity. Qed.

(** The loop of [process_files] ends at the first document whose
    processing raises: the documents after it are not looked at. *)
Lemma process_loop_stops_at_failure (order : SetOrder)
    (extract : str → result (gset str)) (ground_truth : gset str)
    (before after : dict str) (filename text : str)
    (output_directory : dict str) e :
  (process_loop order extract ground_truth before output_directory).2 = Ok () →
  process_document order extract ground_truth text = Raise e →
  process_loop order extract ground_truth
    (before ++ (filename, text) :: after) output_directory
  = ((process_loop order extract ground_truth before output_directory).1,
     Raise e).
Proof.
  intros Hbefore Hfail. revert output_directory Hbefore.
  induction before as [|[name doc] before IH]; intros out Hbefore; cbn.
  - by rewrite Hfail.
  - cbn in Hbefore.
    destruct (process_document order extract ground_truth doc)
      as [[terms record]|e']; [by apply IH | done].
Qed.

(** C7. With two documents, the models loaded and a candidate source
    that fails on the first, [process_files] ends with that failure and
    an empty output directory: the second document is not processed. *)
Theorem process_files_aborts_batch :
  process_files elements_order (Ok ()) failing_on_bad
    [(("a_text.txt" : str), ("bad" : str));
     (("b_text.txt" : str), ("good" : str))] [] ∅
  = ([], Raise (ExternalError "candidate generation failed")).
Proof. reflexivity. Qed.

(** ** Evidence kept by the section contexts *)

Lemma length_lstrip (s : str) : length (lstrip s) ≤ length s.
Proof.
  induction s as [|c s IH]; cbn; [done|]. destruct (isspace c); cbn; lia.
Qed.

Lemma length_rstrip (s : str) : length (rstrip s) ≤ length s.
Proof.
  induction s as [|c s IH]; cbn; [done|].
  destruct (rstrip s); [destruct (isspace c)|]; cbn in *; lia.
Qed.

Lemma strip_fixed_head a (t : str) : strip (a :: t) = a :: t → isspace a = false.
Proof.
  unfold strip. cbn. destruct (isspace a); [|done]. intros H.
  pose proof (length_rstrip (lstrip t)) as H1.
  pose proof (length_lstrip t) as H2. rewrite H in H1. cbn in H1. lia.
Qed.

Lemma rstrip_snoc_space (l : str) z :
  isspace z = true → rstrip (l ++ [z]) = rstrip l.
Proof.
  intros Hz. induction l as [|c l IH]; cbn.
  - by rewrite Hz.
  - by rewrite IH.
Qed.

Lemma rstrip_fixed_last (l : str) z :
  rstrip (l ++ [z]) = l ++ [z] → isspace z = false.
Proof.
  destruct (isspace z) eqn:Hz; [|done]. rewrite rstrip_snoc_space by done.
  intros H. pose proof (length_rstrip l) as Hl. rewrite H in Hl.
  rewrite length_app in Hl. cbn in Hl. lia.
Qed.

Lemma strip_keeps_occurrence (p u q : str) :
  (∀ c, head u = Some c → isspace c = false) →
  (∀ c, last u = Some c → isspace c = false) →
  u ≠ [] →
  ∃ p' q', strip (p ++ u ++ q) = p' ++ u ++ q'.
Proof.
  intros Hhead Hlast Hne. destruct u as [|a u]; [done|].
  destruct (lstrip_keeps p u q a) as [p' Hp']; [by apply Hhead|].
  destruct (last (a :: u)) as [z|] eqn:Hz; [|by apply last_None in Hz].
  apply last_Some in Hz as Hu. destruct Hu as [u0 Hu].
  unfold strip. change (p ++ (a :: u) ++ q) with (p ++ a :: u ++ q).
  rewrite Hp'. change (p' ++ a :: u ++ q) with (p' ++ (a :: u) ++ q).
  rewrite Hu, <- !(assoc_L (++)). cbn [app]. rewrite (assoc_L (++) p' u0).
  destruct (rstrip_keeps (p' ++ u0) q z) as [q' ->]; [by apply Hlast|].
  exists p', q'. by rewrite <- !app_assoc.
Qed.

Lemma strip_fixed_ends (t : str) :
  strip t = t →
  (∀ c, head t = Some c → isspace c = false)
  ∧ (∀ c, last t = Some c → isspace c = false).
Proof.
  intros Ht. destruct t as [|a t]; [by split|].
  pose proof (strip_fixed_head _ _ Ht) as Ha. split.
  - intros c [= <-]. done.
  - intros c [l Hl]%last_Some. unfold strip in Ht. cbn in Ht.
    rewrite Ha, Hl in Ht. by apply rstrip_fixed_last in Ht.
Qed.

Lemma lower_newline_to_space (s : str) :
  lower (newline_to_space <$> s) = newline_to_space <$> lower s.
Proof.
  induction s as [|c s IH]; [done|]. cbn.
  rewrite lower_char_newline_to_space. f_equal. exact IH.
Qed.

Lemma section_context_keeps_term (section term : str) :
  LF ∉ term → strip term = term →
  is_in term (lower section) = true →
  is_in term (lower (section_context section)) = true.
Proof.
  intros Hnl Htrim Hin. destruct (decide (term = [])) as [->|Hne].
  { apply is_in_nil. }
  apply is_in_spec in Hin as (pre & post & Hin).
  unfold lower in Hin.
  apply fmap_app_inv in Hin as (p & rest & -> & Hrest & ->).
  symmetry in Hrest. apply fmap_app_inv in Hrest as (u & q & Hu & -> & ->).
  destruct (strip_fixed_ends term Htrim) as [Hhead Hlast].
  destruct (strip_keeps_occurrence p u q) as (p' & q' & Hstrip).
  - intros c Hc. rewrite <- isspace_lower_char. apply Hhead.
    rewrite Hu. destruct u; simplify_eq/=; done.
  - intros c Hc. rewrite <- isspace_lower_char. apply Hlast.
    rewrite Hu, fmap_last, Hc. done.
  - intros ->. by destruct Hne.
  - apply is_in_spec. unfold section_context.
    rewrite replace_newline, Hstrip, lower_newline_to_space. unfold lower.
    rewrite !fmap_app.
    exists (newline_to_space <$> (lower_char <$> p')),
           (newline_to_space <$> (lower_char <$> q')).
    rewrite <- Hu. by rewrite (newline_to_space_id term Hnl).
Qed.

(** C10. For a term without a newline and without leading or trailing
    whitespace, every section context that the record returned by
    [map_terms_to_sections] stores for the term still contains the term
    once lower-cased. *)
Theorem stored_contexts_contain_term (text : str) (terms : list str)
    (term : str) :
  LF ∉ term → strip term = term →
  ∃ record,
    map_terms_to_sections text terms = Ok record
    ∧ ∀ contexts context,
        dict_get term record = Some contexts → context ∈ contexts →
        is_in term (lower context) = true.
Proof.
  intros Hnl Htrim.
  destruct (mapped_record text terms) as (record & Hrun & _ & Hget).
  exists record. split; [done|]. intros contexts context Hsome Hctx.
  rewrite Hget in Hsome. case_decide; [|done]. simplify_eq.
  apply elem_of_matching_contexts in Hctx as (section & _ & Hin & ->).
  by apply section_context_keeps_term.
Qed.

(** ** The persisted record and its lines *)

Lemma unlines_app (ls1 ls2 : list str) :
  unlines (ls1 ++ ls2) = unlines ls1 ++ unlines ls2.
Proof. unfold unlines. by rewrite fmap_app, concat_app. Qed.

Lemma unlines_cons (l : str) (ls : list str) :
  unlines (l :: ls) = l ++ LF :: unlines ls.
Proof. unfold unlines. cbn. by rewrite <- app_assoc. Qed.

Lemma unlines_section_lines (sections : list str) :
  unlines (concat (section_lines <$> sections))
  = concat ((λ section : str,
               "Section: " ++ section ++ [LF] ++ [LF] ++ "---" ++ [LF])
            <$> sections).
Proof.
  induction sections as [|s sections IH]; [done|].
  cbn [fmap list_fmap concat]. rewrite unlines_app, IH. f_equal.
  unfold section_lines. rewrite !unlines_cons. cbn.
  by rewrite <- ?app_assoc.
Qed.

Lemma unlines_entry_lines (m : dict (list str)) :
  unlines (concat (entry_lines <$> m))
  = concat ((λ entry : str * list str,
               [LF] ++ "Term: " ++ entry.1 ++ [LF]
               ++ concat ((λ section : str,
                             "Section: " ++ section ++ [LF]
                             ++ [LF] ++ "---" ++ [LF]) <$> entry.2))
            <$> m).
Proof.
  induction m as [|[t secs] m IH]; [done|].
  cbn [fmap list_fmap concat]. rewrite unlines_app, IH. f_equal.
  unfold entry_lines. rewrite unlines_app, unlines_section_lines.
  rewrite !unlines_cons. cbn. by rewrite <- ?app_assoc.
Qed.

Lemma unlines_bullets (terms : list str) :
  unlines ((λ term : str, "- " ++ term) <$> terms)
  = concat ((λ term : str, "- " ++ term ++ [LF]) <$> terms).
Proof.
  induction terms as [|t terms IH]; [done|].
  cbn [fmap list_fmap concat]. rewrite unlines_cons, IH. cbn.
  by rewrite <- ?app_assoc.
Qed.

Lemma render_results_unlines (terms : list str) (m : dict (list str)) :
  render_results terms m = unlines (record_lines terms m).
Proof.
  unfold render_results, record_lines.
  rewrite !unlines_app, unlines_bullets, unlines_entry_lines.
  rewrite !unlines_cons. cbn. by rewrite <- ?app_assoc.
Qed.

Lemma splitlines_go_line (cur l rest : str) :
  one_line l →
  splitlines_go false cur (l ++ LF :: rest)
  = (cur ++ l) :: splitlines_go false [] rest.
Proof.
  revert cur. induction l as [|c l IH]; intros cur Hl.
  - by rewrite app_nil_r.
  - apply Forall_cons in Hl as [Hc Hl]. cbn [app splitlines_go andb].
    rewrite Hc, (IH _ Hl). by rewrite <- app_assoc.
Qed.

Lemma splitlines_unlines (ls : list str) :
  Forall one_line ls → splitlines (unlines ls) = ls.
Proof.
  unfold splitlines. induction 1 as [|l ls Hl Hls IH]; [done|].
  rewrite unlines_cons, splitlines_go_line by done. by rewrite IH.
Qed.

(** ** Parsing the lines of a persisted record *)

Lemma for_each_app {A S : Type} (body : S → A → result S) (xs ys : list A)
    (st : S) :
  for_each body (xs ++ ys) st
  = st' ← for_each body xs st; for_each body ys st'.
Proof.
  revert st. induction xs as [|x xs IH]; intros st; cbn; [done|].
  destruct (body st x); cbn; [apply IH | done].
Qed.

Lemma split_go_no_sep sep (cur s : str) :
  sep ∉ s → split_go sep cur s = [cur ++ s].
Proof.
  revert cur. induction s as [|c s IH]; intros cur Hs; cbn.
  - by rewrite app_nil_r.
  - apply not_elem_of_cons in Hs as [Hc Hs].
    destruct (Ascii.eqb_spec c sep) as [->|_]; [done|].
    rewrite IH by done. by rewrite <- app_assoc.
Qed.

Lemma parse_line_bullet (st : Update.parser_state) (term : str) :
  strip term = term →
  Update.parse_line st ("- " ++ term)
  = Ok {| Update.terms := {[term]} ∪ Update.terms st;
          Update.term_section_map :=
            dict_set term [] (Update.term_section_map st);
          Update.current_term := Some term |}.
Proof.
  intros Hterm. unfold Update.parse_line. cbn.
  change (rstrip (lstrip (drop 0 term))) with (strip term). by rewrite Hterm.
Qed.

Lemma parse_line_term (st : Update.parser_state) (term : str) :
  ":"%char ∉ term → strip term = term →
  Update.parse_line st ("Term: " ++ term)
  = Ok {| Update.terms := Update.terms st;
          Update.term_section_map := Update.term_section_map st;
          Update.current_term := Some term |}.
Proof.
  intros Hcolon Hterm. unfold Update.parse_line, split. cbn.
  rewrite split_go_no_sep by done. cbn.
  change (isspace " "%char) with true. cbn match.
  change (rstrip (lstrip term)) with (strip term). by rewrite Hterm.
Qed.

Lemma parse_line_section (st : Update.parser_state) (term section : str)
    (sections : list str) :
  term ≠ [] → Update.current_term st = Some term →
  dict_get term (Update.term_section_map st) = Some sections →
  strip section = section →
  Update.parse_line st ("Section: " ++ section)
  = Ok {| Update.terms := Update.terms st;
          Update.term_section_map :=
            dict_set term (sections ++ [section]) (Update.term_section_map st);
          Update.current_term := Some term |}.
Proof.
  intros Hne Hcur Hget Hsec. unfold Update.parse_line. cbn.
  rewrite Hcur. destruct term as [|c term]; [done|].
  unfold subscript. rewrite Hget. cbn.
  change (rstrip (lstrip (drop 0 section))) with (strip section).
  by rewrite Hsec.
Qed.

Lemma parse_sections (sections : list str) (st : Update.parser_state)
    (term : str) (old : list str) :
  term ≠ [] → Update.current_term st = Some term →
  dict_get term (Update.term_section_map st) = Some old →
  Forall (λ section, strip section = section) sections →
  ∃ m, for_each Update.parse_line (concat (section_lines <$> sections)) st
       = Ok {| Update.terms := Update.terms st;
               Update.term_section_map := m;
               Update.current_term := Some term |}
       ∧ ∀ k, dict_get k m
              = if decide (k = term) then Some (old ++ sections)
                else dict_get k (Update.term_section_map st).
Proof.
  intros Hne. revert st old.
  induction sections as [|s sections IH]; intros st old Hcur Hget Hsecs.
  - exists (Update.term_section_map st). cbn. split.
    + destruct st. cbn in *. by rewrite Hcur.
    + intros k. rewrite app_nil_r. case_decide; [by subst | done].
  - apply Forall_cons in Hsecs as [Hs Hsecs].
    cbn [fmap list_fmap concat]. unfold section_lines at 1.
    cbn [app for_each].
    rewrite (parse_line_section st term s old) by done. cbn.
    match goal with
    | |- context [for_each _ _ ?st1] =>
        destruct (IH st1 (old ++ [s])) as (m & Hrun & Hm)
    end; [done | | done |].
    { cbn. rewrite dict_get_set. by rewrite decide_True. }
    exists m. split; [exact Hrun|]. intros k. rewrite Hm. cbn.
    rewrite dict_get_set, <- app_assoc. by case_decide.
Qed.

Lemma parse_bullets (terms : list str) (st : Update.parser_state) :
  Forall (λ term, strip term = term) terms →
  ∃ current,
    for_each Update.parse_line ((λ term : str, "- " ++ term) <$> terms) st
    = Ok {| Update.terms := list_to_set terms ∪ Update.terms st;
            Update.term_section_map :=
              foldl (λ m term, dict_set term [] m)
                    (Update.term_section_map st) terms;
            Update.current_term := current |}.
Proof.
  revert st. induction terms as [|t terms IH]; intros st Hterms.
  - exists (Update.current_term st). cbn. destruct st. cbn.
    by rewrite (left_id_L ∅ (∪)).
  - apply Forall_cons in Hterms as [Ht Hterms]. cbn [fmap list_fmap for_each].
    rewrite parse_line_bullet by done.
    cbv beta iota delta [mbind result_bind].
    match goal with
    | |- context [for_each _ _ ?st1] =>
        destruct (IH st1 Hterms) as [current Hrun]
    end.
    exists current. rewrite Hrun. cbn. do 2 f_equal. set_solver.
Qed.

Lemma dict_get_snoc {V : Type} (d : dict V) (t : str) (v : V) (k : str) :
  dict_get k (d ++ [(t, v)])
  = match dict_get k d with
    | Some w => Some w
    | None => if decide (k = t) then Some v else None
    end.
Proof.
  induction d as [|[k0 v0] d IH]; cbn; [done|].
  by destruct (decide (k = k0)).
Qed.

Lemma parse_entries (terms : list str) (rest done : dict (list str))
    (st : Update.parser_state) :
  NoDup (dict_keys (done ++ rest)) →
  Forall (storable_entry terms) rest →
  (∀ k, dict_get k (Update.term_section_map st)
        = if decide (k ∈ terms) then Some (default [] (dict_get k done))
          else None) →
  ∃ st',
    for_each Update.parse_line (concat (entry_lines <$> rest)) st = Ok st'
    ∧ Update.terms st' = Update.terms st
    ∧ ∀ k, dict_get k (Update.term_section_map st')
           = if decide (k ∈ terms)
             then Some (default [] (dict_get k (done ++ rest))) else None.
Proof.
  revert done st.
  induction rest as [|[t secs] rest IH]; intros done st Hnd Hrest Hst.
  - exists st. rewrite app_nil_r. by cbn.
  - apply Forall_cons in Hrest as [(Ht & (Hne & _ & Htrim & Hcolon) & Hsecs) Hrest].
    cbn [fst snd] in Ht, Hne, Htrim, Hcolon, Hsecs.
    assert (dict_get t done = None) as Hfresh.
    { apply dict_get_None. unfold dict_keys in *. rewrite fmap_app in Hnd.
      apply NoDup_app in Hnd as (_ & Hdisj & _). intros Hin.
      apply (Hdisj _ Hin). left. }
    cbn [fmap list_fmap concat]. rewrite for_each_app.
    change (entry_lines (t, secs))
      with ([] :: ("Term: " ++ t) :: concat (section_lines <$> secs)).
    change (for_each Update.parse_line
              ([] :: ("Term: " ++ t) :: concat (section_lines <$> secs)) st)
      with (st1 ← Update.parse_line st ("Term: " ++ t);
            for_each Update.parse_line (concat (section_lines <$> secs)) st1).
    rewrite parse_line_term by done. cbv beta iota delta [mbind result_bind].
    match goal with
    | |- context [for_each _ (concat (section_lines <$> secs)) ?st1] =>
        destruct (parse_sections secs st1 t []) as (m & -> & Hm)
    end; [done | done | | |].
    { cbn. by rewrite Hst, decide_True, Hfresh. }
    { eapply Forall_impl; [exact Hsecs|]. by intros s [_ ?]. }
    match goal with
    | |- context [for_each _ (concat (entry_lines <$> rest)) ?st2] =>
        destruct (IH (done ++ [(t, secs)]) st2) as (st' & Hrun & Hterms & Hmap)
    end.
    + by rewrite <- app_assoc.
    + done.
    + intros k. cbn. rewrite Hm, dict_get_snoc. cbn.
      destruct (decide (k = t)) as [->|Hkt].
      * by rewrite decide_True, Hfresh.
      * rewrite Hst. case_decide; [|done]. by destruct (dict_get k done).
    + exists st'. split; [exact Hrun|]. split; [done|].
      intros k. rewrite Hmap. by rewrite <- app_assoc.
Qed.

Lemma record_lines_one_line (terms : list str) (record : dict (list str)) :
  Forall storable_term terms → Forall (storable_entry terms) record →
  Forall one_line (record_lines terms record).
Proof.
  intros Hterms Hrecord. unfold record_lines.
  assert (∀ (prefix : string) (s : str),
            one_line prefix → one_line s → one_line (prefix ++ s)) as Happ.
  { intros. by apply Forall_app. }
  repeat apply Forall_app_2.
  - repeat constructor.
  - apply Forall_fmap. eapply Forall_impl; [exact Hterms|].
    intros t (_ & Ht & _). cbn. apply (Happ "- "); [repeat constructor | done].
  - repeat constructor.
  - apply Forall_concat, Forall_fmap. eapply Forall_impl; [exact Hrecord|].
    intros [t secs] (_ & (_ & Ht & _) & Hsecs). cbn [fst snd] in *.
    change (entry_lines (t, secs))
      with ([] :: ("Term: " ++ t) :: concat (section_lines <$> secs)).
    constructor; [constructor|]. constructor.
    + apply (Happ "Term: "); [repeat constructor | done].
    + apply Forall_concat, Forall_fmap. eapply Forall_impl; [exact Hsecs|].
      intros s [Hs _]. cbn. unfold section_lines.
      constructor; [|repeat constructor].
      apply (Happ "Section: "); [repeat constructor | done].
Qed.

(** Parsing what was saved: the terms come back as a set, and the parsed
    record has every term as a key, with its sections or with none. *)
Lemma parse_saved_record (order : SetOrder) (terms : list str)
    (record : dict (list str)) :
  Forall storable_term terms → NoDup (dict_keys record) →
  Forall (storable_entry terms) record →
  ∃ parsed_record,
    Update.parse_term_extraction_results order (render_results terms record)
    = Ok (order (list_to_set terms), parsed_record)
    ∧ ∀ term,
        dict_get term parsed_record
        = if decide (term ∈ terms)
          then Some (default [] (dict_get term record)) else None.
Proof.
  intros Hterms Hnd Hrecord. unfold Update.parse_term_extraction_results.
  rewrite render_results_unlines, splitlines_unlines
    by by apply record_lines_one_line.
  unfold record_lines. rewrite for_each_app.
  change (for_each Update.parse_line [("Extracted Key Terms:" : str)] ?st)
    with (Ok st : result Update.parser_state).
  cbv beta iota delta [mbind result_bind]. rewrite for_each_app.
  match goal with
  | |- context [for_each _ (_ <$> terms) ?st0] =>
      destruct (parse_bullets terms st0) as [current ->]
  end.
  { eapply Forall_impl; [exact Hterms|]. by intros t (_ & _ & ? & _). }
  cbv beta iota delta [mbind result_bind]. rewrite for_each_app.
  change (for_each Update.parse_line [[]; ("Mapped Sections:" : str)] ?st)
    with (Ok st : result Update.parser_state).
  cbv beta iota delta [mbind result_bind].
  match goal with
  | |- context [for_each _ (concat (entry_lines <$> record)) ?st1] =>
      destruct (parse_entries terms record [] st1)
        as (st' & -> & Hset & Hmap)
  end; [done | done | |].
  { intros k. cbn. destruct (init_tracks terms) as [_ Hinit].
    rewrite Hinit. by case_decide. }
  cbn in Hset. cbn. rewrite Hset, (right_id_L ∅ (∪)).
  eexists. split; [done|]. exact Hmap.
Qed.

(** ** Section contexts are storable *)

Lemma lstrip_head (s : str) c : head (lstrip s) = Some c → isspace c = false.
Proof.
  induction s as [|a s IH]; cbn; [done|].
  destruct (isspace a) eqn:Ha; [done|]. by intros [= <-].
Qed.

Lemma rstrip_last (s : str) c : last (rstrip s) = Some c → isspace c = false.
Proof.
  induction s as [|a s IH]; cbn; [done|].
  destruct (rstrip s) as [|b r].
  - destruct (isspace a) eqn:Ha; [done|]. by intros [= <-].
  - rewrite last_cons_cons. exact IH.
Qed.

Lemma rstrip_head (s : str) c : head (rstrip s) = Some c → head s = Some c.
Proof.
  destruct s as [|a s]; cbn; [done|].
  destruct (rstrip s); [destruct (isspace a)|]; done.
Qed.

Lemma rstrip_id (s : str) :
  (∀ c, last s = Some c → isspace c = false) → rstrip s = s.
Proof.
  induction s as [|a s IH]; intros Hlast; cbn; [done|].
  destruct s as [|b s].
  - cbn. by rewrite (Hlast a).
  - rewrite IH; [done|]. intros c Hc. apply Hlast. by rewrite last_cons_cons.
Qed.

Lemma strip_id (s : str) :
  (∀ c, head s = Some c → isspace c = false) →
  (∀ c, last s = Some c → isspace c = false) →
  strip s = s.
Proof.
  intros Hhead Hlast. unfold strip.
  assert (lstrip s = s) as ->; [|by apply rstrip_id].
  destruct s as [|a s]; cbn; [done|]. by rewrite (Hhead a).
Qed.

Lemma newline_to_space_nonspace c :
  isspace c = false → newline_to_space c = c.
Proof.
  intros Hc. unfold newline_to_space. case_bool_decide as Heq; [|done].
  by rewrite Heq in Hc.
Qed.

Lemma section_context_trimmed (section : str) :
  strip (section_context section) = section_context section.
Proof.
  unfold section_context. rewrite replace_newline. apply strip_id.
  - intros c Hc. destruct (strip section) as [|a s] eqn:Hs; [done|].
    cbn in Hc. injection Hc as <-.
    assert (isspace a = false) as Ha.
    { apply (lstrip_head section), rstrip_head. unfold strip in Hs. by rewrite Hs. }
    by rewrite newline_to_space_nonspace.
  - intros c Hc. rewrite fmap_last in Hc.
    destruct (last (strip section)) as [z|] eqn:Hz; [|done].
    cbn in Hc. injection Hc as <-.
    apply rstrip_last in Hz. by rewrite newline_to_space_nonspace.
Qed.

Lemma Forall_lstrip (P : ascii → Prop) (s : str) :
  Forall P s → Forall P (lstrip s).
Proof.
  induction 1 as [|a s Ha Hs IH]; cbn; [done|].
  destruct (isspace a); [done | by constructor].
Qed.

Lemma Forall_rstrip (P : ascii → Prop) (s : str) :
  Forall P s → Forall P (rstrip s).
Proof.
  induction 1 as [|a s Ha Hs IH]; cbn; [done|].
  destruct (rstrip s); [destruct (isspace a)|]; [done | by constructor..].
Qed.

Lemma section_context_one_line (text section : str) :
  only_line_feeds text → section ∈ split_sections text →
  one_line (section_context section).
Proof.
  intros Htext Hsec. unfold section_context, one_line.
  rewrite replace_newline. apply Forall_fmap.
  apply Forall_rstrip, Forall_lstrip.
  assert (concat (split_sections text) = text) as Hcat
    by apply (re_split_go_concat heading_at).
  rewrite <- Hcat in Htext.
  unfold only_line_feeds in Htext. apply Forall_concat in Htext.
  rewrite Forall_forall in Htext. specialize (Htext _ Hsec).
  rewrite Forall_forall in Htext. apply Forall_forall. intros c Hin.
  specialize (Htext c Hin) as Hc. cbn. unfold newline_to_space. case_bool_decide as Heq; [done|].
  destruct (is_linebreak c); [by destruct Heq; apply Hc | done].
Qed.

Lemma mapped_record_storable (text : str) (terms : list str)
    (record : dict (list str)) :
  Forall storable_term terms → only_line_feeds text →
  map_terms_to_sections text terms = Ok record →
  NoDup (dict_keys record) ∧ Forall (storable_entry terms) record.
Proof.
  intros Hterms Htext Hrun.
  destruct (mapped_record text terms) as (record' & Hrun' & Hnd & Hget).
  rewrite Hrun in Hrun'. injection Hrun' as <-. split; [done|].
  apply Forall_forall. intros [t secs] Hentry.
  apply dict_get_Some_elem in Hentry; [|done]. rewrite Hget in Hentry.
  case_decide as Hin; [|done]. destruct Hin as [Hin _]. simplify_eq.
  split_and!; cbn.
  - done.
  - rewrite Forall_forall in Hterms. by apply Hterms.
  - apply Forall_forall. intros context Hctx.
    apply elem_of_matching_contexts in Hctx as (section & Hsec & _ & ->).
    split.
    + by eapply section_context_one_line.
    + apply section_context_trimmed.
Qed.

(** C1 (as amended). For storable terms and a text whose only line
    boundary is the line feed, the record that [map_terms_to_sections]
    returns is saved and parsed back without an exception; the parsed
    terms are the terms, each once, in the order of a set; the parsed
    record gives every term the sections of the record, and no section to
    a term that the record left out. *)
Theorem saved_record_parses_back (order : SetOrder) (text : str)
    (terms : list str) :
  Forall storable_term terms → only_line_feeds text →
  ∃ record parsed_terms parsed_record,
    map_terms_to_sections text terms = Ok record
    ∧ Update.parse_term_extraction_results order (render_results terms record)
      = Ok (parsed_terms, parsed_record)
    ∧ NoDup parsed_terms
    ∧ (∀ term, term ∈ parsed_terms ↔ term ∈ terms)
    ∧ ∀ term,
        dict_get term parsed_record
        = if decide (term ∈ terms)
          then Some (default [] (dict_get term record)) else None.
Proof.
  intros Hterms Htext.
  destruct (mapped_record text terms) as (record & Hrun & _).
  destruct (mapped_record_storable text terms record) as [Hnd Hrecord];
    [done..|].
  destruct (parse_saved_record order terms record) as (parsed & Hparse & Hget);
    [done..|].
  exists record, (order (list_to_set terms)), parsed. split_and!; [done..| | |done].
  - apply set_iter_NoDup.
  - intros term. rewrite elem_of_set_iter. apply elem_of_list_to_set.
Qed.

(** ** Round trip through the record file *)

(** C1, the claim as stated fails: the pipeline keeps a proposed
    ground-truth term that matches no section in the terms and leaves it
    out of the record; saving and parsing gives the term an entry with an
    empty section list, so the parsed record is not the saved one. *)
Lemma roundtrip_adds_empty_entry :
  process_document elements_order proposing_deposit deposit_terms
    broken_phrase_text
  = Ok ([("security deposit" : str)], [])
  ∧ Update.parse_term_extraction_results elements_order
      (render_results [("security deposit" : str)] [])
    = Ok ([("security deposit" : str)], [(("security deposit" : str), [])])
  ∧ ¬ dict_eq [(("security deposit" : str), ([] : list str))] [].
Proof.
  split_and!; [reflexivity | reflexivity |].
  intros Heq. specialize (Heq ("security deposit" : str)). discriminate Heq.
Qed.

(** The round trip on the end-to-end scenario of the specification. *)
Lemma saved_record_parses_back_witness :
  ∃ record parsed_terms parsed_record,
    map_terms_to_sections scenario_text scenario_terms = Ok record
    ∧ Update.parse_term_extraction_results elements_order
        (render_results scenario_terms record)
      = Ok (parsed_terms, parsed_record)
    ∧ NoDup parsed_terms
    ∧ (∀ term, term ∈ parsed_terms ↔ term ∈ scenario_terms)
    ∧ ∀ term,
        dict_get term parsed_record
        = if decide (term ∈ scenario_terms)
          then Some (default [] (dict_get term record)) else None.
Proof.
  apply (saved_record_parses_back elements_order scenario_text scenario_terms).
  - unfold storable_term, one_line. apply (bool_decide_unpack _).
    vm_compute. exact I.
  - unfold only_line_feeds. apply (bool_decide_unpack _).
    vm_compute. exact I.
Defined.

(** ** Two runs of the pipeline *)

(** C6, the claim as stated fails: two runs on the same document, the same
    ground truth and the same candidate set, in which the interpreter
    iterates over its sets in different orders, write the terms in
    different orders. *)
Lemma reruns_differ_in_term_order :
  process_files elements_order (Ok ()) proposing_two_terms lease_directory []
    two_terms
  ≠ process_files reverse_order (Ok ()) proposing_two_terms lease_directory []
      two_terms.
Proof. intros Heq. vm_compute in Heq. discriminate Heq. Qed.

Lemma process_document_same_order (order1 order2 : SetOrder)
    (extract : str → result (gset str)) (ground_truth : gset str)
    (text : str) :
  (∀ s, order1 s = order2 s) →
  process_document order1 extract ground_truth text
  = process_document order2 extract ground_truth text.
Proof.
  intros Hsame. unfold process_document, ensure_critical_terms,
    ensure_ground_truth_terms.
  destruct (extract text) as [candidates|e]; [|done]. cbn.
  by rewrite !Hsame.
Qed.

Lemma process_loop_same_order (order1 order2 : SetOrder)
    (extract : str → result (gset str)) (ground_truth : gset str)
    (texts output_directory : dict str) :
  (∀ s, order1 s = order2 s) →
  process_loop order1 extract ground_truth texts output_directory
  = process_loop order2 extract ground_truth texts output_directory.
Proof.
  intros Hsame. revert output_directory.
  induction texts as [|[filename text] texts IH]; intros out; cbn; [done|].
  rewrite (process_document_same_order order1 order2) by done.
  destruct (process_document order2 extract ground_truth text)
    as [[terms record]|e]; [apply IH | done].
Qed.

Lemma elem_of_relevant_terms (order : SetOrder) (candidates : gset str)
    (ground_truth : gset str) (text : str) x :
  x ∈ filter_relevant_terms
        (ensure_ground_truth_terms order
           (ensure_critical_terms order candidates text) ground_truth text)
        ground_truth
  ↔ x ∈ ground_truth
    ∧ (x ∈ candidates
       ∨ (x ∈ critical_terms ∧ is_in x (lower text) = true)
       ∨ is_in x (lower text) = true).
Proof.
  rewrite elem_of_filter_relevant_terms, elem_of_ensure_ground_truth_terms.
  rewrite elem_of_ensure_critical_terms. tauto.
Qed.

(** C6 (as amended). Two runs of the pipeline on the same document, with
    the same ground truth and the same candidate source, either both fail
    in the candidate source or both return: then the terms of one run are
    the terms of the other up to their order, and the two records give
    every term the same section list.  When the sets are iterated in the
    same order in both runs, the output directories are equal file by
    file, byte by byte. *)
Theorem reruns_agree_up_to_set_order (order1 order2 : SetOrder)
    (extract : str → result (gset str)) (ground_truth : gset str) :
  (∀ text,
     match process_document order1 extract ground_truth text,
           process_document order2 extract ground_truth text with
     | Ok (terms1, record1), Ok (terms2, record2) =>
         terms1 ≡ₚ terms2 ∧ dict_eq record1 record2
     | Raise e1, Raise e2 => extract text = Raise e1 ∧ e1 = e2
     | _, _ => False
     end)
  ∧ ((∀ s, order1 s = order2 s) →
     ∀ load_ner_model text_directory output_directory,
       process_files order1 load_ner_model extract text_directory
         output_directory ground_truth
       = process_files order2 load_ner_model extract text_directory
           output_directory ground_truth).
Proof.
  split.
  - intros text. unfold process_document.
    destruct (extract text) as [candidates|e]; [|done]. cbn.
    set (terms1 := filter_relevant_terms _ _).
    set (terms2 := filter_relevant_terms _ _).
    destruct (mapped_record text terms1) as (record1 & -> & _ & Hget1).
    destruct (mapped_record text terms2) as (record2 & -> & _ & Hget2).
    cbn.
    assert (∀ x, x ∈ terms1 ↔ x ∈ terms2) as Hsame.
    { intros x. unfold terms1, terms2. by rewrite !elem_of_relevant_terms. }
    split.
    + apply NoDup_Permutation; [| |done];
        apply NoDup_filter, ensure_ground_truth_terms_NoDup, set_iter_NoDup.
    + intros term. rewrite Hget1, Hget2. apply decide_ext. by rewrite Hsame.
  - intros Hsame load_ner_model text_directory output_directory.
    unfold process_files. destruct load_ner_model; [|done].
    by apply process_loop_same_order.
Qed.

(** Two runs with the same iteration order on the lease document. *)
Lemma reruns_agree_up_to_set_order_witness :
  process_files elements_order (Ok ()) proposing_two_terms lease_directory []
    two_terms
  = process_files elements_order (Ok ()) proposing_two_terms lease_directory
      [] two_terms.
Proof.
  apply (reruns_agree_up_to_set_order elements_order elements_order
           proposing_two_terms two_terms).
  intros s. reflexivity.
Defined.

(** ** The change monitor *)

Section Monitor.
Variable md5 : str → str.
Variable order : SetOrder.
Variable results_directory : dict str.

Lemma poll_file_changed (self : Update.updater) (file_path old_hash : str)
    content results shown :
  dict_get file_path results_directory = Some content →
  md5 content ≠ old_hash →
  Update.load_term_extraction_results order results_directory = Ok results →
  dict_get file_path results = Some shown →
  Update.poll_file md5 order results_directory self (file_path, old_hash)
  = Ok {| Update.term_extraction_results := results;
          Update.file_hashes :=
            dict_set file_path (md5 content) (Update.file_hashes self);
          Update.log :=
            Update.log self
            ++ [Update.DetectedModification file_path;
                Update.DisplayedDocument file_path shown.1 shown.2] |}.
Proof.
  intros Hread Hne Hload Hshown.
  unfold Update.poll_file, Update.compute_file_hash, subscript. cbn.
  rewrite Hread. cbn. rewrite bool_decide_eq_true_2 by done.
  rewrite Hload. cbn. by rewrite Hshown.
Qed.

Lemma poll_file_unchanged (self : Update.updater) (file_path old_hash : str)
    content :
  dict_get file_path results_directory = Some content →
  md5 content = old_hash →
  Update.poll_file md5 order results_directory self (file_path, old_hash)
  = Ok {| Update.term_extraction_results := Update.term_extraction_results self;
          Update.file_hashes := Update.file_hashes self;
          Update.log := Update.log self ++ [Update.NoActualChange file_path] |}.
Proof.
  intros Hread Heq.
  unfold Update.poll_file, Update.compute_file_hash. cbn.
  rewrite Hread. cbn. rewrite bool_decide_eq_false_2; [done|]. by intros [].
Qed.

(** The hashes after a step: the visited entry has the hash of its file,
    the others are as before. *)
Lemma poll_file_hashes (self self' : Update.updater) (file_path old_hash : str) :
  Update.poll_file md5 order results_directory self (file_path, old_hash)
  = Ok self' →
  dict_get file_path (Update.file_hashes self) = Some old_hash →
  ∃ content,
    dict_get file_path results_directory = Some content
    ∧ dict_keys (Update.file_hashes self') = dict_keys (Update.file_hashes self)
    ∧ ∀ k, dict_get k (Update.file_hashes self')
           = if decide (k = file_path) then Some (md5 content)
             else dict_get k (Update.file_hashes self).
Proof.
  unfold Update.poll_file, Update.compute_file_hash. cbn.
  destruct (dict_get file_path results_directory) as [content|] eqn:Hread;
    [|done].
  cbn. intros Hstep Hold. exists content. split; [done|].
  case_bool_decide as Hne.
  - destruct (Update.load_term_extraction_results order results_directory)
      as [results|]; [|done].
    cbn in Hstep. destruct (subscript results file_path); [|done].
    cbn in Hstep. injection Hstep as <-. cbn [Update.file_hashes]. split.
    + rewrite dict_keys_set, decide_True; [done|].
      apply dict_get_is_Some. by rewrite Hold.
    + intros k. apply dict_get_set.
  - injection Hstep as <-. cbn. split; [done|]. intros k.
    case_decide as Hk; [|done]. subst k. rewrite Hold. by f_equal.
Qed.

Lemma poll_loop_hashes (entries : dict str) (self self' : Update.updater) :
  NoDup (dict_keys entries) →
  (∀ k h, (k, h) ∈ entries → dict_get k (Update.file_hashes self) = Some h) →
  for_each (Update.poll_file md5 order results_directory) entries self
  = Ok self' →
  dict_keys (Update.file_hashes self') = dict_keys (Update.file_hashes self)
  ∧ ∀ k, dict_get k (Update.file_hashes self')
         = if decide (k ∈ dict_keys entries)
           then md5 <$> dict_get k results_directory
           else dict_get k (Update.file_hashes self).
Proof.
  revert self. induction entries as [|[p h] entries IH];
    intros self Hnd Hentries Hrun.
  - cbn in Hrun. injection Hrun as <-. split; [done|]. intros k.
    rewrite decide_False; [done | apply not_elem_of_nil].
  - cbn in Hrun.
    destruct (Update.poll_file md5 order results_directory self (p, h))
      as [self1|] eqn:Hstep; [|done].
    cbn in Hrun. unfold dict_keys in Hnd. cbn in Hnd.
    apply NoDup_cons in Hnd as [Hp Hnd].
    destruct (poll_file_hashes self self1 p h Hstep) as (content & Hread & Hkeys & Hget).
    { apply Hentries. left. }
    destruct (IH self1 Hnd) as [Hkeys' Hget']; [|done|].
    { intros k h' Hin. rewrite Hget. rewrite decide_False.
      - apply Hentries. by right.
      - intros ->. apply Hp. apply list_elem_of_fmap. by exists (p, h'). }
    split; [by rewrite Hkeys', Hkeys|]. intros k. rewrite Hget', Hget.
    unfold dict_keys. cbn. destruct (decide (k = p)) as [->|Hkp].
    + rewrite decide_False by done. rewrite decide_True by left.
      by rewrite Hread.
    + apply decide_ext. rewrite elem_of_cons. tauto.
Qed.

Lemma poll_loop_all_unchanged (entries : dict str) (self : Update.updater) :
  (∀ k h, (k, h) ∈ entries → md5 <$> dict_get k results_directory = Some h) →
  for_each (Update.poll_file md5 order results_directory) entries self
  = Ok {| Update.term_extraction_results := Update.term_extraction_results self;
          Update.file_hashes := Update.file_hashes self;
          Update.log :=
            Update.log self ++ (Update.NoActualChange <$> dict_keys entries) |}.
Proof.
  revert self. induction entries as [|[p h] entries IH]; intros self Hentries.
  - cbn. rewrite app_nil_r. by destruct self.
  - cbn [for_each].
    destruct (dict_get p results_directory) as [content|] eqn:Hread.
    2:{ specialize (Hentries p h). rewrite Hread in Hentries.
        by specialize (Hentries ltac:(left)). }
    rewrite (poll_file_unchanged self p h content); [|done|].
    2:{ specialize (Hentries p h ltac:(left)). rewrite Hread in Hentries.
        by injection Hentries. }
    cbn. rewrite IH.
    + cbn. by rewrite <- app_assoc.
    + intros k h' Hin. apply Hentries. by right.
Qed.

(** A poll that returned leaves nothing to detect: polling again while the
    directory stays as it is keeps the results and the hashes, and logs
    that no file changed. *)
Lemma second_poll_reports_no_change (self self' : Update.updater) :
  NoDup (dict_keys (Update.file_hashes self)) →
  Update.poll_tick md5 order results_directory self = Ok self' →
  Update.poll_tick md5 order results_directory self'
  = Ok {| Update.term_extraction_results := Update.term_extraction_results self';
          Update.file_hashes := Update.file_hashes self';
          Update.log :=
            Update.log self'
            ++ (Update.NoActualChange
                  <$> dict_keys (Update.file_hashes self')) |}.
Proof.
  intros Hnd Hrun. unfold Update.poll_tick in *.
  destruct (poll_loop_hashes _ self self' Hnd) as [Hkeys Hget]; [|done|].
  { intros k h Hin. by apply dict_get_Some_elem. }
  apply poll_loop_all_unchanged. intros k h Hin.
  apply dict_get_Some_elem in Hin; [|by rewrite Hkeys].
  rewrite Hget in Hin. case_decide as Hk; [done|].
  destruct Hk. apply dict_get_is_Some. by rewrite Hin.
Qed.

End Monitor.

Section Loading.
Variable order : SetOrder.

Lemma load_loop_other (directory : dict str)
    (loaded results : dict (list str * dict (list str))) (k : str) :
  for_each (λ results entry,
              if endswith entry.1 "_terms.txt" then
                parsed ← Update.parse_term_extraction_results order entry.2;
                Ok (dict_set entry.1 parsed results)
              else Ok results)
           directory loaded = Ok results →
  k ∉ dict_keys directory →
  dict_get k results = dict_get k loaded.
Proof.
  revert loaded. induction directory as [|[name content] directory IH];
    intros loaded Hrun Hk; cbn [for_each fst snd mbind result_bind] in Hrun.
  - by injection Hrun as <-.
  - unfold dict_keys in Hk. cbn in Hk. apply not_elem_of_cons in Hk as [Hne Hk].
    destruct (endswith name "_terms.txt").
    + destruct (Update.parse_term_extraction_results order content)
        as [parsed|]; [|by cbn [for_each fst snd mbind result_bind] in Hrun].
      cbn [for_each fst snd mbind result_bind] in Hrun. rewrite (IH _ Hrun Hk), dict_get_set.
      by rewrite decide_False.
    + cbn [for_each fst snd mbind result_bind] in Hrun. by apply IH.
Qed.

(** What [load_term_extraction_results] returns holds, for every record
    file of the directory, what the parser makes of its content. *)
Lemma loaded_results_are_parsed (directory : dict str)
    (results : dict (list str * dict (list str))) (filename content : str) :
  NoDup (dict_keys directory) →
  Update.load_term_extraction_results order directory = Ok results →
  (filename, content) ∈ directory →
  endswith filename "_terms.txt" = true →
  ∃ parsed,
    Update.parse_term_extraction_results order content = Ok parsed
    ∧ dict_get filename results = Some parsed.
Proof.
  unfold Update.load_term_extraction_results.
  generalize ([] : dict (list str * dict (list str))) as loaded.
  induction directory as [|[name text] directory IH];
    intros loaded Hnd Hrun Hin Hsuffix.
  - by apply elem_of_nil in Hin.
  - unfold dict_keys in Hnd. cbn in Hnd. apply NoDup_cons in Hnd as [Hname Hnd].
    cbn [for_each fst snd mbind result_bind] in Hrun. apply elem_of_cons in Hin as [[= <- <-]|Hin].
    + rewrite Hsuffix in Hrun.
      destruct (Update.parse_term_extraction_results order content)
        as [parsed|]; [|by cbn [for_each fst snd mbind result_bind] in Hrun].
      cbn [for_each fst snd mbind result_bind] in Hrun. exists parsed. split; [done|].
      rewrite (load_loop_other _ _ _ filename Hrun Hname), dict_get_set.
      by rewrite decide_True.
    + destruct (endswith name "_terms.txt").
      * destruct (Update.parse_term_extraction_results order text)
          as [parsed|]; [|by cbn [for_each fst snd mbind result_bind] in Hrun].
        cbn [for_each fst snd mbind result_bind] in Hrun. by eapply IH.
      * cbn [for_each fst snd mbind result_bind] in Hrun. by eapply IH.
Qed.

End Loading.

(** C8. The monitor watches one record file; the file is edited so that a
    [Term:] line names a term without a bullet line.  The next poll finds
    a new hash, and the reload raises [KeyError]: no results are reloaded
    and no document is displayed.  On the unedited directory the same poll
    reports no change. *)
Theorem monitor_raises_on_edited_record :
  Update.init content_digest elements_order watched_directory = Ok watching
  ∧ Update.poll_tick content_digest elements_order edited_directory watching
    = Raise (KeyError "foo")
  ∧ Update.poll_tick content_digest elements_order watched_directory watching
    = Ok {| Update.term_extraction_results :=
              Update.term_extraction_results watching;
            Update.file_hashes := Update.file_hashes watching;
            Update.log := [Update.NoActualChange "lease_terms.txt"] |}.
Proof. split_and!; reflexivity. Qed.

(** ** The theorems at concrete inputs *)

(** The contexts stored for "term" in the end-to-end scenario. *)
Lemma stored_contexts_contain_term_witness :
  ∃ record,
    map_terms_to_sections scenario_text scenario_terms = Ok record
    ∧ ∀ contexts context,
        dict_get ("term" : str) record = Some contexts → context ∈ contexts →
        is_in "term" (lower context) = true.
Proof.
  apply (stored_contexts_contain_term scenario_text scenario_terms "term").
  - apply (bool_decide_unpack _). vm_compute. exact I.
  - reflexivity.
Defined.

(** A text with "confidentiality" and without "security deposit", and no
    candidate. *)
Lemma ensure_critical_terms_gated_by_text_witness :
  ("confidentiality" : str)
    ∈ ensure_critical_terms elements_order ∅ "A Confidentiality clause."
  ∧ (("security deposit" : str)
       ∈ ensure_critical_terms elements_order ∅ "A Confidentiality clause." →
     ("security deposit" : str) ∈ (∅ : gset str)).
Proof.
  destruct (ensure_critical_terms_gated_by_text elements_order ∅
              "A Confidentiality clause.")
    as (_ & _ & _ & _ & _ & _ & Hgate).
  apply Hgate; reflexivity.
Defined.

(** ** More on term curation *)

Lemma filter_ext_elem {A : Type} (P Q : A → Prop) `{!∀ x, Decision (P x)}
    `{!∀ x, Decision (Q x)} (l : list A) :
  (∀ x, x ∈ l → P x ↔ Q x) → filter P l = filter Q l.
Proof.
  induction l as [|a l IH]; intros Hext; [done|].
  rewrite !filter_cons. rewrite IH by (intros x Hx; apply Hext; by right).
  apply decide_ext, Hext. left.
Qed.

Lemma append_present_spec (present : str → bool) (ts extracted : list str) :
  NoDup ts →
  foldl (λ extracted term,
           if present term
           then if bool_decide (term ∈ extracted) then extracted
                else extracted ++ [term]
           else extracted)
        extracted ts
  = extracted ++ filter (λ t, present t = true ∧ t ∉ extracted) ts.
Proof.
  revert extracted. induction ts as [|t ts IH]; intros extracted Hnd.
  - cbn. by rewrite app_nil_r.
  - apply NoDup_cons in Hnd as [Ht Hnd]. rewrite filter_cons. cbn [foldl].
    destruct (present t) eqn:Hp.
    + case_bool_decide as Hin.
      * rewrite decide_False by tauto. by apply IH.
      * rewrite decide_True by done. rewrite IH by done.
        rewrite <- app_assoc. cbn [app]. do 2 f_equal.
        apply filter_ext_elem. intros x Hx.
        rewrite elem_of_app, list_elem_of_singleton.
        split; [tauto|]. intros [? ?]. split; [done|].
        intros [?|Heq]; [done | by subst].
    + rewrite decide_False by (intros [? _]; done). by apply IH.
Qed.

(** X1. [ensure_ground_truth_terms] keeps the extracted terms in their
    order and appends, in the order in which the ground-truth set is
    iterated over, the ground-truth terms that occur in the lower-cased
    text and are not extracted yet; so a list without repetition stays
    without repetition. *)
Theorem ensure_ground_truth_terms_appends (order : SetOrder)
    (extracted : list str) (ground_truth : gset str) (text : str) :
  ensure_ground_truth_terms order extracted ground_truth text
  = extracted
    ++ filter (λ term, is_in term (lower text) = true ∧ term ∉ extracted)
              (order ground_truth)
  ∧ (NoDup extracted →
     NoDup (ensure_ground_truth_terms order extracted ground_truth text)).
Proof.
  split.
  - unfold ensure_ground_truth_terms.
    apply (append_present_spec (λ t, is_in t (lower text))), set_iter_NoDup.
  - apply ensure_ground_truth_terms_NoDup.
Qed.

(** X2. For a document on which the candidate source returns,
    [process_document] returns; its relevant terms have no repetition and
    are exactly the ground-truth terms that are candidates or occur in the
    lower-cased text.  When the candidate source raises, so does
    [process_document], with the same exception. *)
Theorem process_document_relevant_terms (order : SetOrder)
    (extract_key_terms : str → result (gset str)) (ground_truth : gset str)
    (text : str) :
  match extract_key_terms text with
  | Ok candidates =>
      ∃ relevant_terms record,
        process_document order extract_key_terms ground_truth text
        = Ok (relevant_terms, record)
        ∧ NoDup relevant_terms
        ∧ ∀ term,
            term ∈ relevant_terms
            ↔ term ∈ ground_truth
              ∧ (term ∈ candidates ∨ is_in term (lower text) = true)
  | Raise e =>
      process_document order extract_key_terms ground_truth text = Raise e
  end.
Proof.
  unfold process_document.
  destruct (extract_key_terms text) as [candidates|e]; [|done]. cbn.
  set (relevant := filter_relevant_terms _ _).
  destruct (mapped_record text relevant) as (record & -> & _).
  exists relevant, record. split_and!; [done | |].
  - apply NoDup_filter, ensure_ground_truth_terms_NoDup, set_iter_NoDup.
  - intros term. unfold relevant. rewrite elem_of_relevant_terms. tauto.
Qed.

(** ** More on section mapping *)

Lemma first_occurrences_go_seen (seen1 seen2 l : list str) :
  (∀ x, x ∈ seen1 ↔ x ∈ seen2) →
  first_occurrences_go seen1 l = first_occurrences_go seen2 l.
Proof.
  revert seen1 seen2. induction l as [|y l IH]; intros seen1 seen2 Hseen; [done|].
  cbn [first_occurrences_go].
  rewrite (bool_decide_ext (y ∈ seen1) (y ∈ seen2)) by apply Hseen.
  case_bool_decide; [by apply IH|]. f_equal. apply IH.
  intros x. rewrite !elem_of_cons, Hseen. done.
Qed.

Lemma init_keys (terms : list str) (m : dict (list str)) :
  dict_keys (foldl (λ m term, dict_set term [] m) m terms)
  = dict_keys m ++ first_occurrences_go (dict_keys m) terms.
Proof.
  revert m. induction terms as [|t terms IH]; intros m.
  - cbn. by rewrite app_nil_r.
  - cbn [foldl first_occurrences_go]. rewrite IH, dict_keys_set.
    case_bool_decide as Hin.
    + by rewrite decide_True.
    + rewrite decide_False by done. rewrite <- app_assoc. cbn [app].
      do 2 f_equal. apply first_occurrences_go_seen. intros x.
      rewrite elem_of_app, !elem_of_cons, elem_of_nil. tauto.
Qed.

Lemma note_section_keys (section term : str) (m m' : dict (list str)) :
  note_section section m term = Ok m' → dict_keys m' = dict_keys m.
Proof.
  unfold note_section, subscript.
  destruct (is_in term (lower section)); [|by intros [= <-]].
  destruct (dict_get term m) as [contexts|] eqn:Hget; [|done]. cbn.
  case_bool_decide; intros [= <-]; [done|].
  rewrite dict_keys_set, decide_True; [done|].
  apply dict_get_is_Some. by rewrite Hget.
Qed.

Lemma for_each_keys {A : Type}
    (body : dict (list str) → A → result (dict (list str))) (xs : list A)
    (m m' : dict (list str)) :
  (∀ m1 m2 x, body m1 x = Ok m2 → dict_keys m2 = dict_keys m1) →
  for_each body xs m = Ok m' → dict_keys m' = dict_keys m.
Proof.
  intros Hbody. revert m. induction xs as [|x xs IH]; intros m; cbn.
  - by intros [= <-].
  - destruct (body m x) as [m1|] eqn:Hstep; [|done]. cbn. intros Hrun.
    rewrite (IH _ Hrun). by eapply Hbody.
Qed.

Lemma filter_keys_by_value (m : dict (list str)) (f : str → list str) :
  (∀ t v, (t, v) ∈ m → v = f t) →
  dict_keys (filter (λ entry : str * list str, entry.2 ≠ []) m)
  = filter (λ t, f t ≠ []) (dict_keys m).
Proof.
  unfold dict_keys. induction m as [|[t v] m IH]; intros Hm; [done|].
  cbn [fmap list_fmap]. rewrite !filter_cons. cbn [fst snd].
  rewrite (Hm t v) by left.
  rewrite <- IH by (intros t' v' Hin; apply Hm; by right).
  by case_decide.
Qed.

Lemma mapped_record_keys (text : str) (terms : list str)
    (record : dict (list str)) :
  map_terms_to_sections text terms = Ok record →
  dict_keys record
  = filter (λ term, matching_contexts text term ≠ []) (first_occurrences terms).
Proof.
  unfold map_terms_to_sections.
  destruct (outer_loop_tracks terms (split_sections text) [] _
              (init_tracks terms)) as (m & Hrun & Hnd & Hget).
  rewrite Hrun. cbn. intros [= <-].
  rewrite (filter_keys_by_value m (matching_contexts text)).
  - f_equal. apply for_each_keys in Hrun.
    + rewrite Hrun. apply (init_keys terms []).
    + intros m1 m2 section. apply for_each_keys.
      intros m3 m4 term Hnote. by eapply note_section_keys.
  - intros t v Hin. apply dict_get_Some_elem in Hin; [|done].
    rewrite Hget in Hin. case_decide; [|done]. by injection Hin as <-.
Qed.

(** X3. The keys of the record that [map_terms_to_sections] returns come
    in the order of the terms list: they are the terms, each at the place
    of its first occurrence, that have a section context.  No term and
    no section matching gives the empty record. *)
Theorem record_keys_follow_terms (text : str) (terms : list str) :
  ∃ record,
    map_terms_to_sections text terms = Ok record
    ∧ dict_keys record
      = filter (λ term, matching_contexts text term ≠ [])
               (first_occurrences terms)
    ∧ ((∀ term, term ∈ terms → matching_contexts text term = []) →
       record = []).
Proof.
  destruct (mapped_record text terms) as (record & Hrun & _).
  exists record. split; [done|].
  pose proof (mapped_record_keys text terms record Hrun) as Hkeys.
  split; [done|]. intros Hnone.
  assert (dict_keys record = []) as Hnil.
  { rewrite Hkeys. apply elem_of_nil_inv. intros term Hterm.
    apply list_elem_of_filter in Hterm as [Hne Hterm].
    rewrite elem_of_first_occurrences in Hterm. apply Hne. by apply Hnone. }
  unfold dict_keys in Hnil. by apply fmap_nil_inv in Hnil.
Qed.

(** ** Sections and headings *)

Lemma isdecimal_is_word c : isdecimal c = true → is_word c = true.
Proof. by destruct c as [[] [] [] [] [] [] [] []]. Qed.

Lemma isdecimal_not_space c : isdecimal c = true → isspace c = false.
Proof. by destruct c as [[] [] [] [] [] [] [] []]. Qed.

Lemma heading_complete (d : ascii) (r : str) c (s : str) :
  isdecimal d = true → isdecimal c = true →
  (∀ p, last (d :: r) = Some p → is_word p = false) →
  digits_dot_space (r ++ c :: s) = true →
  digits_dot_space r = true.
Proof.
  revert d. induction r as [|x r IH]; intros d Hd Hc Hlast Hrest.
  - apply isdecimal_is_word in Hd. by rewrite (Hlast d) in Hd.
  - cbn in Hrest. cbn. destruct (isdecimal x) eqn:Hx.
    + apply (IH x); [done.. | | done]. intros p Hp. apply Hlast.
      by rewrite last_cons_cons.
    + destruct (is_code 46 x); [|done]. destruct r as [|w r]; cbn in *.
      * by rewrite isdecimal_not_space in Hrest.
      * done.
Qed.

Lemma pieces_start_with_heading (s : str) prev (cur : str) :
  cur ≠ [] → prev = last cur → starts_with_heading (cur ++ s) = true →
  Forall (λ piece, starts_with_heading piece = true)
         (re_split_go heading_at prev cur s).
Proof.
  revert prev cur. induction s as [|c s IH]; intros prev cur Hne Hprev Hstart.
  - cbn. rewrite app_nil_r in Hstart. by repeat constructor.
  - cbn [re_split_go]. destruct (heading_at prev (c :: s)) eqn:Hmatch.
    + cbn in Hmatch. apply andb_true_iff in Hmatch as [Hmatch Hboundary].
      apply andb_true_iff in Hmatch as [Hc Hs]. constructor.
      * destruct cur as [|d r]; [done|]. cbn in Hstart |- *.
        apply andb_true_iff in Hstart as [Hd Hrest].
        rewrite Hd. cbn. apply (heading_complete d r c s); [done.. | | done].
        intros p Hp. rewrite Hprev, Hp in Hboundary.
        by apply negb_true_iff in Hboundary.
      * apply IH; [done | done |]. cbn. by rewrite Hc, Hs.
    + apply IH.
      * by destruct cur.
      * by rewrite last_snoc.
      * by rewrite <- app_assoc.
Qed.

(** X5. Every section but the first that the split of
    [map_terms_to_sections] produces starts with a heading: digits, a
    period and a whitespace character, all inside the section. *)
Theorem later_sections_start_with_heading (text : str) :
  Forall (λ section, starts_with_heading section = true)
         (tail (split_sections text)).
Proof.
  unfold split_sections. generalize (None : option ascii) as prev.
  generalize ([] : str) as cur.
  induction text as [|c text IH]; intros cur prev; [by constructor|].
  cbn [re_split_go]. destruct (heading_at prev (c :: text)) eqn:Hmatch.
  - cbn [tail]. apply pieces_start_with_heading; [done | done |].
    cbn in Hmatch. apply andb_true_iff in Hmatch as [Hmatch _]. exact Hmatch.
  - apply IH.
Qed.

(** ** Stored contexts *)

Lemma newline_to_space_not_newline c : newline_to_space c ≠ LF.
Proof. by destruct c as [[] [] [] [] [] [] [] []]. Qed.

Lemma section_context_no_newline (section : str) :
  LF ∉ section_context section.
Proof.
  unfold section_context. rewrite replace_newline.
  intros (c & Hc & _)%list_elem_of_fmap.
  by apply (newline_to_space_not_newline c).
Qed.

(** X4. Every section context that [map_terms_to_sections] stores is free
    of line feeds and has no leading or trailing whitespace. *)
Theorem stored_contexts_are_trimmed_lines (text : str) (terms : list str) :
  ∃ record,
    map_terms_to_sections text terms = Ok record
    ∧ ∀ term contexts context,
        dict_get term record = Some contexts → context ∈ contexts →
        (LF ∉ context) ∧ strip context = context.
Proof.
  destruct (mapped_record text terms) as (record & Hrun & _ & Hget).
  exists record. split; [done|]. intros term contexts context Hsome Hctx.
  rewrite Hget in Hsome. case_decide; [|done]. simplify_eq.
  apply elem_of_matching_contexts in Hctx as (section & _ & _ & ->).
  split; [apply section_context_no_newline | apply section_context_trimmed].
Qed.

(** ** Ground-truth terms *)

Lemma splitlines_go_one_line (after_cr : bool) (cur s : str) :
  one_line cur → Forall one_line (splitlines_go after_cr cur s).
Proof.
  revert after_cr cur. induction s as [|c s IH]; intros after_cr cur Hcur.
  - cbn. destruct cur; [constructor|]. constructor; [done | constructor].
  - cbn [splitlines_go]. destruct (after_cr && bool_decide (c = LF)).
    + by apply IH.
    + destruct (is_linebreak c) eqn:Hc.
      * constructor; [done|]. apply IH. constructor.
      * apply IH. apply Forall_app. split; [done|].
        constructor; [done | constructor].
Qed.

Lemma splitlines_one_line (s : str) : Forall one_line (splitlines s).
Proof. apply splitlines_go_one_line. constructor. Qed.

Lemma is_linebreak_lower_char c : is_linebreak (lower_char c) = is_linebreak c.
Proof. by destruct c as [[] [] [] [] [] [] [] []]. Qed.

Lemma lower_char_idem c : lower_char (lower_char c) = lower_char c.
Proof. by destruct c as [[] [] [] [] [] [] [] []]. Qed.

Lemma lower_idem (s : str) : lower (lower s) = lower s.
Proof.
  unfold lower. induction s as [|c s IH]; [done|]. cbn.
  by rewrite lower_char_idem, IH.
Qed.

Lemma lower_strip_trimmed (s : str) : strip (lower (strip s)) = lower (strip s).
Proof.
  apply strip_id.
  - intros c Hc. destruct (strip s) as [|a r] eqn:Hs; [done|].
    cbn in Hc. injection Hc as <-. rewrite isspace_lower_char.
    apply (lstrip_head s), rstrip_head. unfold strip in Hs. by rewrite Hs.
  - intros c Hc. unfold lower in Hc. rewrite fmap_last in Hc.
    destruct (last (strip s)) as [z|] eqn:Hz; [|done].
    cbn in Hc. injection Hc as <-. rewrite isspace_lower_char.
    by apply rstrip_last in Hz.
Qed.

Lemma lower_strip_one_line (s : str) : one_line s → one_line (lower (strip s)).
Proof.
  intros Hs. unfold one_line, lower. apply Forall_fmap.
  apply Forall_rstrip, Forall_lstrip. unfold one_line in Hs.
  rewrite Forall_forall in Hs. apply Forall_forall. intros c Hc. cbn.
  rewrite is_linebreak_lower_char. by apply Hs.
Qed.

Lemma elem_of_bullet_terms (lines : list str) (acc : gset str) x :
  x ∈ foldl (λ ts line,
               if startswith line "- "
               then {[lower (strip (drop 2 line))]} ∪ ts else ts)
            acc lines
  ↔ x ∈ acc
    ∨ ∃ line, line ∈ lines ∧ startswith line "- " = true
              ∧ x = lower (strip (drop 2 line)).
Proof.
  revert acc. induction lines as [|l lines IH]; intros acc; cbn [foldl].
  - split; [by left|]. intros [?|(? & []%elem_of_nil & _)]. done.
  - rewrite IH. destruct (startswith l "- ") eqn:Hl.
    + rewrite elem_of_union, elem_of_singleton. split.
      * intros [[->|?]|(line & ? & ? & ?)]; [right | by left | right].
        -- exists l. split; [left | done].
        -- exists line. split; [by right | done].
      * intros [?|(line & [->|?]%elem_of_cons & ? & ?)];
          [by left; right | by left; left | right; by exists line].
    + split.
      * intros [?|(line & ? & ? & ?)]; [by left | right].
        exists line. split; [by right | done].
      * intros [?|(line & [->|?]%elem_of_cons & ? & ?)];
          [by left | congruence | right; by exists line].
Qed.

Lemma elem_of_load_ground_truth_terms (directory : dict str) x :
  x ∈ load_ground_truth_terms directory
  ↔ ∃ filename content line,
      (filename, content) ∈ directory
      ∧ endswith filename "_terms.txt" = true
      ∧ line ∈ splitlines content ∧ startswith line "- " = true
      ∧ x = lower (strip (drop 2 line)).
Proof.
  unfold load_ground_truth_terms.
  assert (∀ acc : gset str,
    x ∈ foldl (λ terms entry,
                 if endswith entry.1 "_terms.txt"
                 then foldl (λ ts line,
                               if startswith line "- "
                               then {[lower (strip (drop 2 line))]} ∪ ts
                               else ts)
                            terms (splitlines entry.2)
                 else terms) acc directory
    ↔ x ∈ acc
      ∨ ∃ filename content line,
          (filename, content) ∈ directory
          ∧ endswith filename "_terms.txt" = true
          ∧ line ∈ splitlines content ∧ startswith line "- " = true
          ∧ x = lower (strip (drop 2 line))) as Hgen.
  { induction directory as [|[name content] directory IH]; intros acc;
      cbn [foldl fst snd].
    - split; [by left|]. intros [?|(? & ? & ? & []%elem_of_nil & _)]. done.
    - rewrite IH. destruct (endswith name "_terms.txt") eqn:Hname.
      + rewrite elem_of_bullet_terms. split.
        * intros [[?|(line & ? & ? & ?)]|(f & c & line & ? & ?)].
          -- by left.
          -- right. exists name, content, line. split; [left | done].
          -- right. exists f, c, line. split; [by right | done].
        * intros [?|(f & c & line & [[= -> ->]|?]%elem_of_cons & ? & ? & ? & ?)].
          -- by left; left.
          -- left. right. by exists line.
          -- right. by exists f, c, line.
      + split.
        * intros [?|(f & c & line & ? & ?)]; [by left | right].
          exists f, c, line. split; [by right | done].
        * intros [?|(f & c & line & [[= -> ->]|?]%elem_of_cons & ? & ?)];
            [by left | congruence | right; by exists f, c, line]. }
  rewrite Hgen. split; [intros [[]%elem_of_empty|?]; done | by right].
Qed.

(** X6. The terms that [load_ground_truth_terms] returns are exactly the
    bullet lines of the [_terms.txt] files, trimmed and lower-cased; each
    is lower-case, has no leading or trailing whitespace and no line
    boundary, so that none contains a line feed. *)
Theorem ground_truth_terms_are_normalized (directory : dict str) (term : str) :
  (term ∈ load_ground_truth_terms directory
   ↔ ∃ filename content line,
       (filename, content) ∈ directory
       ∧ endswith filename "_terms.txt" = true
       ∧ line ∈ splitlines content ∧ startswith line "- " = true
       ∧ term = lower (strip (drop 2 line)))
  ∧ (term ∈ load_ground_truth_terms directory →
     lower term = term ∧ strip term = term ∧ one_line term ∧ LF ∉ term).
Proof.
  split; [apply elem_of_load_ground_truth_terms|].
  intros (f & c & line & _ & _ & Hline & _ & ->)%elem_of_load_ground_truth_terms.
  assert (one_line (lower (strip (drop 2 line)))) as Hone.
  { apply lower_strip_one_line, Forall_drop.
    pose proof (splitlines_one_line c) as Hlines.
    rewrite Forall_forall in Hlines. by apply Hlines. }
  split_and!; [apply lower_idem | apply lower_strip_trimmed | done |].
  intros Hin. unfold one_line in Hone. rewrite Forall_forall in Hone.
  by specialize (Hone _ Hin).
Qed.

(** ** What the parsers raise and what they ignore *)

Lemma for_each_raise {A S : Type} (body : S → A → result S) (xs : list A)
    (st : S) e :
  for_each body xs st = Raise e → ∃ st' x, x ∈ xs ∧ body st' x = Raise e.
Proof.
  revert st. induction xs as [|x xs IH]; intros st; cbn; [done|].
  destruct (body st x) as [st1|e1] eqn:Hstep; cbn.
  - intros (st' & y & Hy & Hraise)%IH. exists st', y. split; [by right | done].
  - intros [= ->]. exists st, x. split; [left | done].
Qed.

Lemma for_each_invariant {A S : Type} (body : S → A → result S)
    (P : A → Prop) (I : S → Prop) (xs : list A) (st : S) :
  (∀ st x, P x → I st → ∃ st', body st x = Ok st' ∧ I st') →
  Forall P xs → I st → ∃ st', for_each body xs st = Ok st' ∧ I st'.
Proof.
  intros Hbody Hxs. revert st. induction Hxs as [|x xs Hx Hxs IH]; intros st Hst.
  - by exists st.
  - cbn. destruct (Hbody st x Hx Hst) as (st1 & -> & Hst1). cbn. by apply IH.
Qed.

Lemma for_each_preserves {A S : Type} (body : S → A → result S)
    (I : S → Prop) (xs : list A) (st st' : S) :
  (∀ st x st', body st x = Ok st' → I st → I st') →
  for_each body xs st = Ok st' → I st → I st'.
Proof.
  intros Hbody. revert st. induction xs as [|x xs IH]; intros st; cbn.
  - by intros [= <-].
  - destruct (body st x) as [st1|] eqn:Hstep; [|done]. cbn.
    intros Hrun Hst. apply (IH st1 Hrun). by eapply Hbody.
Qed.

Lemma split_go_one sep (cur s : str) :
  ∃ a rest, split_go sep cur s = a :: rest.
Proof.
  revert cur. induction s as [|c s IH]; intros cur; cbn; [by eauto|].
  destruct (Ascii.eqb c sep); [by eauto | apply IH].
Qed.

Lemma split_go_two sep (cur s : str) :
  sep ∈ s → ∃ a b rest, split_go sep cur s = a :: b :: rest.
Proof.
  revert cur. induction s as [|c s IH]; intros cur Hin.
  - by apply elem_of_nil in Hin.
  - cbn. destruct (Ascii.eqb_spec c sep) as [->|Hne].
    + destruct (split_go_one sep [] s) as (a & rest & ->). by eauto.
    + apply IH. apply elem_of_cons in Hin as [->|?]; done.
Qed.

Lemma term_line_has_part (line : str) :
  startswith line "Term:" = true → ∃ part, item (split line ":") 1 = Ok part.
Proof.
  intros (rest & ->)%startswith_spec.
  destruct (split_go_two ":" [] ("Term:" ++ rest)) as (a & b & l & Hsplit).
  { apply elem_of_app. left. apply (bool_decide_unpack _). by vm_compute. }
  unfold split, item. rewrite Hsplit. by exists b.
Qed.

Lemma update_parse_line_raises (st : Update.parser_state) (line : str) e :
  Update.parse_line st line = Raise e → ∃ key, e = KeyError key.
Proof.
  unfold Update.parse_line. destruct (startswith line "- "); [done|].
  destruct (startswith line "Term:") eqn:Hterm.
  { destruct (term_line_has_part line Hterm) as [part ->]. done. }
  destruct (startswith line "Section:"); [|done].
  destruct (Update.current_term st) as [[|c t]|]; [done | | done].
  unfold subscript. destruct (dict_get (c :: t) _); [done|].
  intros [= <-]. by eexists.
Qed.

Lemma evaluate_parse_line_raises (st : Evaluate.parser_state) (line : str) e :
  Evaluate.parse_line st line = Raise e → ∃ key, e = KeyError key.
Proof.
  unfold Evaluate.parse_line. destruct (startswith line "- "); [done|].
  destruct (startswith line "Term:") eqn:Hterm.
  { destruct (term_line_has_part line Hterm) as [part ->]. done. }
  destruct (startswith line "Section:"); [|done].
  destruct (Evaluate.current_term st) as [[|c t]|]; [done | | done].
  unfold subscript. destruct (dict_get (c :: t) _); [done|].
  intros [= <-]. by eexists.
Qed.

(** X7. The only exception that the two record parsers raise is
    [KeyError]: the part after the colon of a [Term:] line always exists,
    so [line.split(":")[1]] never raises [IndexError]. *)
Theorem parsers_raise_only_key_errors (order : SetOrder) (content : str) e :
  (Update.parse_term_extraction_results order content = Raise e →
   ∃ key, e = KeyError key)
  ∧ (Evaluate.parse_term_extraction_results content = Raise e →
     ∃ key, e = KeyError key).
Proof.
  split.
  - unfold Update.parse_term_extraction_results.
    destruct (for_each _ _ _) as [st|e'] eqn:Hrun; [done|]. intros [= ->].
    apply for_each_raise in Hrun as (st' & line & _ & Hline).
    by eapply update_parse_line_raises.
  - unfold Evaluate.parse_term_extraction_results.
    destruct (for_each _ _ _) as [st|e'] eqn:Hrun; [done|]. intros [= ->].
    apply for_each_raise in Hrun as (st' & line & _ & Hline).
    by eapply evaluate_parse_line_raises.
Qed.

Lemma update_parse_line_returns (st : Update.parser_state) (line : str) :
  startswith line "Term:" = false →
  current_is_key (Update.current_term st) (Update.term_section_map st) →
  ∃ st', Update.parse_line st line = Ok st'
         ∧ current_is_key (Update.current_term st')
             (Update.term_section_map st').
Proof.
  intros Hterm Hkey. unfold Update.parse_line. rewrite Hterm.
  destruct (startswith line "- ").
  { eexists. split; [done|]. unfold current_is_key.
    cbn [Update.current_term Update.term_section_map Evaluate.current_term
         Evaluate.term_section_map]. rewrite dict_keys_set.
    case_decide; [done|]. apply elem_of_app. right. left. }
  destruct (startswith line "Section:"); [|by exists st].
  destruct (Update.current_term st) as [[|c t]|] eqn:Hcur;
    [exists st; by rewrite Hcur | | exists st; by rewrite Hcur].
  unfold current_is_key in Hkey.
  apply dict_get_is_Some in Hkey as [sections Hget].
  unfold subscript. rewrite Hget. cbn. eexists. split; [done|].
  unfold current_is_key.
  cbn [Update.current_term Update.term_section_map Evaluate.current_term
       Evaluate.term_section_map].
  rewrite dict_keys_set, decide_True; apply dict_get_is_Some; by rewrite Hget.
Qed.

Lemma evaluate_parse_line_returns (st : Evaluate.parser_state) (line : str) :
  startswith line "Term:" = false →
  current_is_key (Evaluate.current_term st) (Evaluate.term_section_map st) →
  ∃ st', Evaluate.parse_line st line = Ok st'
         ∧ current_is_key (Evaluate.current_term st')
             (Evaluate.term_section_map st').
Proof.
  intros Hterm Hkey. unfold Evaluate.parse_line. rewrite Hterm.
  destruct (startswith line "- ").
  { eexists. split; [done|]. unfold current_is_key.
    cbn [Update.current_term Update.term_section_map Evaluate.current_term
         Evaluate.term_section_map]. rewrite dict_keys_set.
    case_decide; [done|]. apply elem_of_app. right. left. }
  destruct (startswith line "Section:"); [|by exists st].
  destruct (Evaluate.current_term st) as [[|c t]|] eqn:Hcur;
    [exists st; by rewrite Hcur | | exists st; by rewrite Hcur].
  unfold current_is_key in Hkey.
  apply dict_get_is_Some in Hkey as [sections Hget].
  unfold subscript. rewrite Hget. cbn. eexists. split; [done|].
  unfold current_is_key.
  cbn [Update.current_term Update.term_section_map Evaluate.current_term
       Evaluate.term_section_map].
  rewrite dict_keys_set, decide_True; apply dict_get_is_Some; by rewrite Hget.
Qed.

(** X8. A file without a line that starts with [Term:] (a ground-truth
    file, which holds bullet lines only, is one) is parsed by both parsers
    without an exception, whatever else it contains. *)
Theorem files_without_term_lines_parse (order : SetOrder) (content : str) :
  Forall (λ line, startswith line "Term:" = false) (splitlines content) →
  (∃ parsed, Update.parse_term_extraction_results order content = Ok parsed)
  ∧ (∃ parsed, Evaluate.parse_term_extraction_results content = Ok parsed).
Proof.
  intros Hlines. split.
  - unfold Update.parse_term_extraction_results.
    edestruct (for_each_invariant Update.parse_line
                 (λ line, startswith line "Term:" = false)
                 (λ st, current_is_key (Update.current_term st)
                          (Update.term_section_map st)))
      as (st & -> & _); [|exact Hlines| |by eexists].
    + intros st line. apply update_parse_line_returns.
    + done.
  - unfold Evaluate.parse_term_extraction_results.
    edestruct (for_each_invariant Evaluate.parse_line
                 (λ line, startswith line "Term:" = false)
                 (λ st, current_is_key (Evaluate.current_term st)
                          (Evaluate.term_section_map st)))
      as (st & -> & _); [|exact Hlines| |by eexists].
    + intros st line. apply evaluate_parse_line_returns.
    + done.
Qed.

Lemma update_parse_line_unrecognized (st : Update.parser_state) (line : str) :
  unrecognized line → Update.parse_line st line = Ok st.
Proof.
  intros (Hbullet & Hterm & Hsection). unfold Update.parse_line.
  by rewrite Hbullet, Hterm, Hsection.
Qed.

Lemma evaluate_parse_line_unrecognized (st : Evaluate.parser_state)
    (line : str) :
  unrecognized line → Evaluate.parse_line st line = Ok st.
Proof.
  intros (Hbullet & Hterm & Hsection). unfold Evaluate.parse_line.
  by rewrite Hbullet, Hterm, Hsection.
Qed.

Lemma for_each_skip {A S : Type} (body : S → A → result S)
    (before after : list A) (x : A) (st : S) :
  (∀ st, body st x = Ok st) →
  for_each body (before ++ x :: after) st = for_each body (before ++ after) st.
Proof.
  intros Hskip. rewrite !for_each_app. destruct (for_each body before st); [|done].
  cbn. by rewrite Hskip.
Qed.

(** X9. A line that starts with none of ["- "], ["Term:"] and
    ["Section:"] (a header, a blank line, the ["---"] separator) changes
    nothing: both parsers return for a file with the line what they
    return for the file without it, be it a result or an exception. *)
Theorem unrecognized_lines_are_ignored (order : SetOrder)
    (before after : list str) (line : str) :
  Forall one_line before → one_line line → Forall one_line after →
  unrecognized line →
  Update.parse_term_extraction_results order (unlines (before ++ line :: after))
  = Update.parse_term_extraction_results order (unlines (before ++ after))
  ∧ Evaluate.parse_term_extraction_results (unlines (before ++ line :: after))
    = Evaluate.parse_term_extraction_results (unlines (before ++ after)).
Proof.
  intros Hbefore Hline Hafter Hskip.
  unfold Update.parse_term_extraction_results,
    Evaluate.parse_term_extraction_results.
  rewrite !splitlines_unlines
    by (apply Forall_app; split; [done|]; try constructor; done).
  split.
  - by rewrite (for_each_skip Update.parse_line)
      by (intros; by apply update_parse_line_unrecognized).
  - by rewrite (for_each_skip Evaluate.parse_line)
      by (intros; by apply evaluate_parse_line_unrecognized).
Qed.

Lemma filter_all {A : Type} (P : A → Prop) `{!∀ x, Decision (P x)}
    (l : list A) :
  (∀ x, x ∈ l → P x) → filter P l = l.
Proof.
  induction l as [|a l IH]; intros Hall; [done|].
  rewrite filter_cons, decide_True by (apply Hall; left).
  f_equal. apply IH. intros x Hx. apply Hall. by right.
Qed.

Lemma update_parse_line_terms_are_keys (st st' : Update.parser_state)
    (line : str) :
  Update.parse_line st line = Ok st' →
  (∀ t, t ∈ Update.terms st ↔ t ∈ dict_keys (Update.term_section_map st)) →
  ∀ t, t ∈ Update.terms st' ↔ t ∈ dict_keys (Update.term_section_map st').
Proof.
  unfold Update.parse_line. intros Hstep Hst.
  destruct (startswith line "- ").
  { injection Hstep as <-. intros t.
    cbn [Update.terms Update.term_section_map].
    rewrite dict_keys_set, elem_of_union, elem_of_singleton, Hst.
    case_decide as Hin; [|rewrite elem_of_app, list_elem_of_singleton; tauto].
    split; [intros [->|?]; done | by right]. }
  destruct (startswith line "Term:").
  { destruct (item _ _); [|done]. by injection Hstep as <-. }
  destruct (startswith line "Section:"); [|by injection Hstep as <-].
  destruct (Update.current_term st) as [[|c t']|];
    [by injection Hstep as <- | | by injection Hstep as <-].
  unfold subscript in Hstep.
  destruct (dict_get (c :: t') _) as [sections|] eqn:Hget; [|done].
  injection Hstep as <-. intros t. cbn [Update.terms Update.term_section_map].
  rewrite dict_keys_set, decide_True; [apply Hst|].
  apply dict_get_is_Some. by rewrite Hget.
Qed.

(** X10. Whatever [parse_term_extraction_results] of [update.py] returns,
    its terms have no repetition and are exactly the keys of its map; so
    [display_terms] shows every parsed term. *)
Theorem parsed_terms_are_the_keys (order : SetOrder) (content : str)
    (terms : list str) (term_section_map : dict (list str)) :
  Update.parse_term_extraction_results order content
  = Ok (terms, term_section_map) →
  NoDup terms
  ∧ (∀ term, term ∈ terms ↔ term ∈ dict_keys term_section_map)
  ∧ Update.display_terms terms term_section_map
    = [("Extracted Key Terms:" : str)]
      ++ ((λ term : str, "- " ++ term) <$> terms)
      ++ [[LF] ++ "Mapped Sections:"]
      ++ concat ((λ entry : str * list str,
                    ([LF] ++ "Term: " ++ entry.1)
                    :: ((λ section : str,
                           "Section: " ++ section ++ [LF] ++ "---")
                          <$> entry.2))
                 <$> term_section_map).
Proof.
  unfold Update.parse_term_extraction_results.
  destruct (for_each _ _ _) as [st|] eqn:Hrun; [|done]. cbn. intros [= <- <-].
  assert (∀ t, t ∈ Update.terms st
               ↔ t ∈ dict_keys (Update.term_section_map st)) as Hkeys.
  { eapply (for_each_preserves Update.parse_line
              (λ st, ∀ t, t ∈ Update.terms st
                          ↔ t ∈ dict_keys (Update.term_section_map st)));
      [|exact Hrun|].
    - intros st1 line st2 Hstep.
      by apply (update_parse_line_terms_are_keys st1 st2 line).
    - intros t. cbn. rewrite elem_of_nil. set_solver. }
  assert (∀ term, term ∈ order (Update.terms st)
                  ↔ term ∈ dict_keys (Update.term_section_map st)) as Hterms.
  { intros term. by rewrite elem_of_set_iter. }
  split_and!; [apply set_iter_NoDup | done |].
  unfold Update.display_terms. do 3 f_equal.
  apply filter_all. intros term Hterm. by apply Hterms.
Qed.

(** ** File names from one stage to the next *)

Lemma replace_go_skip (old new : str) (k : nat) (s : str) :
  replace_go old new k s = replace_go old new 0 (drop k s).
Proof.
  revert k. induction s as [|c s IH]; intros k.
  - by rewrite drop_nil.
  - destruct k as [|k]; [done|]. cbn [replace_go drop]. apply IH.
Qed.

Lemma startswith_refl (s : str) : startswith s s = true.
Proof. apply startswith_spec. exists []. by rewrite app_nil_r. Qed.

Lemma endswith_spec (s p : str) : endswith s p = true ↔ ∃ front, s = front ++ p.
Proof.
  unfold endswith. rewrite startswith_spec. split.
  - intros [rest Hrest]. exists (reverse rest).
    apply (inj reverse). by rewrite Hrest, reverse_app, reverse_involutive.
  - intros [front ->]. exists (reverse front). by rewrite reverse_app.
Qed.

Lemma replace_keeps_suffix (old new : str) (front : str) :
  old ≠ [] → unbordered old →
  ∃ r, replace (front ++ old) old new = r ++ new.
Proof.
  intros Hne Hunb. unfold replace.
  remember (length front) as n eqn:Hn. revert front Hn.
  induction n as [n IH] using lt_wf_ind. intros front Hn.
  destruct (front ++ old) as [|c s'] eqn:Hs.
  { apply app_eq_nil in Hs as [_ ?]. done. }
  cbn [replace_go]. destruct (startswith (c :: s') old) eqn:Hstart.
  - apply startswith_spec in Hstart as [rest Hrest].
    rewrite replace_go_skip.
    assert (drop (length old - 1) s' = rest) as ->.
    { destruct old as [|o old']; [done|]. cbn in Hrest. injection Hrest as -> ->.
      cbn. rewrite Nat.sub_0_r. apply drop_app_length. }
    rewrite Hrest in Hs.
    destruct (decide (length front = 0)) as [Hzero|Hpos].
    { apply nil_length_inv in Hzero as ->. cbn in Hs.
      assert (rest = []) as ->.
      { apply (f_equal length) in Hs. rewrite length_app in Hs.
        apply nil_length_inv. lia. }
      exists []. cbn. by rewrite app_nil_r. }
    destruct (decide (length old ≤ length front)) as [Hge|Hlt].
    + assert (front = old ++ drop (length old) front) as Hfront.
      { rewrite <- (take_drop (length old) front) at 1. f_equal.
        apply (f_equal (take (length old))) in Hs.
        by rewrite take_app_le, take_app_length in Hs. }
      rewrite Hfront, <- app_assoc in Hs. apply app_inv_head in Hs as <-.
      destruct (IH (length (drop (length old) front))) with
        (front := drop (length old) front) as [r Hr]; [|done|].
      { rewrite length_drop. destruct old; [done|]. cbn in *. lia. }
      exists (new ++ r). by rewrite Hr, app_assoc.
    + exfalso. apply (Hunb (length old - length front)); [lia|].
      replace (length old - (length old - length front)) with (length front)
        by lia.
      apply (f_equal (drop (length front))) in Hs.
      rewrite drop_app_length, drop_app_le in Hs by lia.
      pose proof (take_app_length' (drop (length front) old) rest
                    (length old - length front)) as Htake.
      rewrite <- Hs in Htake. apply Htake. by rewrite length_drop.
  - destruct front as [|c' front].
    { cbn in Hs. rewrite <- Hs, startswith_refl in Hstart. done. }
    cbn in Hs. injection Hs as -> <-.
    destruct (IH (length front)) with (front := front) as [r Hr];
      [cbn in Hn; lia | done |].
    exists (c :: r). by rewrite Hr.
Qed.

Lemma replace_suffix (s old new : str) :
  old ≠ [] → unbordered old → endswith s old = true →
  endswith (replace s old new) new = true.
Proof.
  intros Hne Hunb [front ->]%endswith_spec.
  destruct (replace_keeps_suffix old new front Hne Hunb) as [r ->].
  apply endswith_spec. by exists r.
Qed.

Lemma unbordered_pdf : unbordered ".pdf".
Proof. intros k Hk. cbn in Hk. do 4 (destruct k as [|k]; [done || lia|]). lia. Qed.

Lemma unbordered_text_suffix : unbordered "_text.txt".
Proof. intros k Hk. cbn in Hk. do 9 (destruct k as [|k]; [done || lia|]). lia. Qed.

(** X11. File names lead from one stage to the next: the text file that
    [extract_text_from_pdf] writes for a [.pdf] file has a name that ends
    with [_text.txt], so that [load_text_files] takes it up; the record
    that [save_term_extraction_results] writes for a file whose name ends
    with [_text.txt] has a name that ends with [_terms.txt], so that the
    monitor and the evaluation load it. *)
Theorem written_names_have_the_next_suffix (filename : str) :
  (endswith filename ".pdf" = true →
   endswith (replace filename ".pdf" "_text.txt") "_text.txt" = true)
  ∧ (endswith filename "_text.txt" = true →
     endswith (replace filename "_text.txt" "_terms.txt") "_terms.txt" = true).
Proof.
  split.
  - apply replace_suffix; [done | apply unbordered_pdf].
  - apply replace_suffix; [done | apply unbordered_text_suffix].
Qed.

(** ** Directories read and written *)

Lemma dict_set_fresh {V : Type} (k : str) (v : V) (d : dict V) :
  k ∉ dict_keys d → dict_set k v d = d ++ [(k, v)].
Proof.
  unfold dict_keys. induction d as [|[k0 v0] d IH]; intros Hk; [done|].
  cbn in Hk. apply not_elem_of_cons in Hk as [Hne Hk]. cbn.
  rewrite decide_False by done. by rewrite IH.
Qed.

Lemma foldl_select_entries {V W : Type} (p : str → bool) (g : V → W)
    (directory : dict V) (acc : dict W) :
  NoDup (acc.*1 ++ directory.*1) →
  foldl (λ d entry, if p entry.1 then dict_set entry.1 (g entry.2) d else d)
        acc directory
  = acc ++ ((λ entry, (entry.1, g entry.2))
              <$> filter (λ entry, p entry.1 = true) directory).
Proof.
  revert acc. induction directory as [|[k v] directory IH]; intros acc Hnd.
  - cbn. by rewrite app_nil_r.
  - cbn [foldl fst snd]. rewrite filter_cons. cbn [fst].
    cbn [fmap list_fmap fst] in Hnd.
    assert (k ∉ acc.*1) as Hfresh.
    { apply NoDup_app in Hnd as (_ & Hdisj & _). intros Hin.
      apply (Hdisj _ Hin). left. }
    destruct (p k) eqn:Hp.
    + rewrite decide_True by done. rewrite dict_set_fresh by done.
      rewrite IH.
      * by rewrite <- app_assoc.
      * rewrite fmap_app, <- app_assoc. exact Hnd.
    + rewrite decide_False by done. apply IH.
      apply NoDup_app in Hnd as (Hacc & Hdisj & Hdir).
      apply NoDup_cons in Hdir as [_ Hdir].
      apply NoDup_app. split_and!; [done | | done].
      intros x Hx Hin. apply (Hdisj x Hx). by right.
Qed.

Lemma load_text_files_selects (directory : dict str) :
  NoDup (dict_keys directory) →
  load_text_files directory
  = (λ entry : str * str, (entry.1, universal_newlines entry.2))
      <$> filter (λ entry, endswith entry.1 "_text.txt" = true) directory.
Proof.
  intros Hnd. unfold load_text_files.
  exact (foldl_select_entries (λ name, endswith name "_text.txt")
           universal_newlines directory [] Hnd).
Qed.

Lemma process_document_returns (order : SetOrder)
    (extract : str → result (gset str)) (ground_truth : gset str)
    (text : str) candidates :
  extract text = Ok candidates →
  ∃ terms record,
    process_document order extract ground_truth text = Ok (terms, record).
Proof.
  intros Hextract. unfold process_document. rewrite Hextract. cbn.
  set (relevant := filter_relevant_terms _ _).
  destruct (mapped_record text relevant) as (record & -> & _).
  by exists relevant, record.
Qed.

Lemma process_loop_returns (order : SetOrder)
    (extract : str → result (gset str)) (ground_truth : gset str)
    (texts output_directory : dict str) :
  (∀ filename text, (filename, text) ∈ texts →
                    ∃ candidates, extract text = Ok candidates) →
  ∃ written,
    process_loop order extract ground_truth texts output_directory
    = (written, Ok ())
    ∧ (∀ name,
         (∀ filename text, (filename, text) ∈ texts →
                           replace filename "_text.txt" "_terms.txt" ≠ name) →
         dict_get name written = dict_get name output_directory)
    ∧ (NoDup ((λ entry : str * str,
                 replace entry.1 "_text.txt" "_terms.txt") <$> texts) →
       ∀ filename text, (filename, text) ∈ texts →
         ∃ terms record,
           process_document order extract ground_truth text
           = Ok (terms, record)
           ∧ dict_get (replace filename "_text.txt" "_terms.txt") written
             = Some (render_results terms record)).
Proof.
  revert output_directory.
  induction texts as [|[f t] texts IH]; intros out Hextract.
  - exists out. split; [done|]. split; [done|].
    intros _ ?? []%elem_of_nil.
  - destruct (Hextract f t) as [candidates Hc]; [left|].
    destruct (process_document_returns order extract ground_truth t _ Hc)
      as (terms & record & Hdoc).
    cbn [process_loop]. rewrite Hdoc.
    destruct (IH (save_term_extraction_results out f terms record))
      as (written & -> & Hother & Hwritten).
    { intros f' t' Hin. apply (Hextract f' t'). by right. }
    exists written. split; [done|]. split.
    + intros name Hname. rewrite Hother.
      * unfold save_term_extraction_results. rewrite dict_get_set.
        rewrite decide_False; [done|]. intros ->. by apply (Hname f t); [left|].
      * intros f' t' Hin. apply (Hname f' t'). by right.
    + cbn [fmap list_fmap fst]. intros [Hf Hnd]%NoDup_cons f' t' Hin.
      apply elem_of_cons in Hin as [[= -> ->]|Hin]; [|by apply Hwritten].
      exists terms, record. split; [done|]. rewrite Hother.
      * unfold save_term_extraction_results. rewrite dict_get_set.
        by rewrite decide_True.
      * intros f' t' Hin Heq. apply Hf. apply list_elem_of_fmap.
        exists (f', t'). by split.
Qed.

Lemma process_files_returns (order : SetOrder)
    (extract_key_terms : str → result (gset str))
    (text_directory output_directory : dict str) (ground_truth : gset str) :
  NoDup (dict_keys text_directory) →
  (∀ filename content,
     (filename, content) ∈ text_directory →
     endswith filename "_text.txt" = true →
     ∃ candidates,
       extract_key_terms (universal_newlines content) = Ok candidates) →
  ∃ written,
    process_files order (Ok ()) extract_key_terms text_directory
      output_directory ground_truth
    = (written, Ok ())
    ∧ (∀ name,
         (∀ filename content,
            (filename, content) ∈ text_directory →
            endswith filename "_text.txt" = true →
            replace filename "_text.txt" "_terms.txt" ≠ name) →
         dict_get name written = dict_get name output_directory)
    ∧ (NoDup ((λ entry : str * str,
                 replace entry.1 "_text.txt" "_terms.txt")
              <$> filter (λ entry, endswith entry.1 "_text.txt" = true)
                         text_directory) →
       ∀ filename content,
         (filename, content) ∈ text_directory →
         endswith filename "_text.txt" = true →
         ∃ terms record,
           process_document order extract_key_terms ground_truth
             (universal_newlines content)
           = Ok (terms, record)
           ∧ dict_get (replace filename "_text.txt" "_terms.txt") written
             = Some (render_results terms record)).
Proof.
  intros Hnd Hextract. unfold process_files.
  rewrite load_text_files_selects by done.
  set (read := λ entry : str * str, (entry.1, universal_newlines entry.2)).
  set (files := filter (λ entry : str * str,
                          endswith entry.1 "_text.txt" = true)
                       text_directory).
  assert (∀ f t, (f, t) ∈ read <$> files
                 ↔ ∃ content, t = universal_newlines content
                              ∧ (f, content) ∈ text_directory
                              ∧ endswith f "_text.txt" = true) as Hread.
  { intros f t. unfold files. rewrite list_elem_of_fmap. split.
    - intros ([f' content] & [= -> ->] & [Hsuffix Hin]%list_elem_of_filter).
      by exists content.
    - intros (content & -> & Hin & Hsuffix). exists (f, content).
      split; [done|]. by apply list_elem_of_filter. }
  destruct (process_loop_returns order extract_key_terms ground_truth
              (read <$> files) output_directory)
    as (written & Hrun & Hother & Hwritten).
  { intros f t (content & -> & Hin & Hsuffix)%Hread.
    by apply (Hextract f content). }
  exists written. split; [done|]. split.
  - intros name Hname. apply Hother.
    intros f t (content & -> & Hin & Hsuffix)%Hread.
    by apply (Hname f content).
  - intros Hnames f content Hin Hsuffix. apply Hwritten.
    + by rewrite <- list_fmap_compose.
    + apply Hread. by exists content.
Qed.

(** X12. [process_files] on a text directory with distinct file names.
    When loading the models raises, the call raises with the output
    directory untouched.  When the models are loaded and the candidate
    source returns for every file whose name ends with [_text.txt], as
    [open] in text mode reads it, the call returns: every such document
    whose record name is that of no other has its record, as rendered
    from the result of [process_document] on the text read, under its
    name with [_text.txt] replaced by [_terms.txt], and every file of the
    output directory with another name is left as it was.  Files with
    another suffix are not read. *)
Theorem process_files_writes_the_records (order : SetOrder)
    (load_ner_model : result ())
    (extract_key_terms : str → result (gset str))
    (text_directory output_directory : dict str) (ground_truth : gset str) :
  NoDup (dict_keys text_directory) →
  (∀ filename content,
     (filename, content) ∈ text_directory →
     endswith filename "_text.txt" = true →
     ∃ candidates,
       extract_key_terms (universal_newlines content) = Ok candidates) →
  match load_ner_model with
  | Raise e =>
      process_files order (Raise e) extract_key_terms text_directory
        output_directory ground_truth
      = (output_directory, Raise e)
  | Ok loaded =>
      ∃ written,
        process_files order (Ok loaded) extract_key_terms text_directory
          output_directory ground_truth
        = (written, Ok ())
        ∧ (∀ name,
             (∀ filename content,
                (filename, content) ∈ text_directory →
                endswith filename "_text.txt" = true →
                replace filename "_text.txt" "_terms.txt" ≠ name) →
             dict_get name written = dict_get name output_directory)
        ∧ (NoDup ((λ entry : str * str,
                     replace entry.1 "_text.txt" "_terms.txt")
                  <$> filter (λ entry, endswith entry.1 "_text.txt" = true)
                             text_directory) →
           ∀ filename content,
             (filename, content) ∈ text_directory →
             endswith filename "_text.txt" = true →
             ∃ terms record,
               process_document order extract_key_terms ground_truth
                 (universal_newlines content)
               = Ok (terms, record)
               ∧ dict_get (replace filename "_text.txt" "_terms.txt")
                   written
                 = Some (render_results terms record))
  end.
Proof.
  intros Hnd Hextract. destruct load_ner_model as [[]|e]; [|done].
  by apply process_files_returns.
Qed.

(** ** Starting and polling the monitor *)

Lemma for_each_returns_iff {A S : Type} (body : S → A → result S)
    (Q : A → Prop) (xs : list A) (st : S) :
  (∀ st x, (∃ st', body st x = Ok st') ↔ Q x) →
  (∃ st', for_each body xs st = Ok st') ↔ Forall Q xs.
Proof.
  intros Hbody. revert st. induction xs as [|x xs IH]; intros st; cbn.
  - split; [constructor | by eexists].
  - rewrite Forall_cons, <- (Hbody st x). destruct (body st x) as [st1|e]; cbn.
    + rewrite (IH st1). split; [by eauto | tauto].
    + split; [by intros [? ?] | by intros [[? ?] _]].
Qed.

(** X13. Loading the results directory is all or nothing:
    [load_term_extraction_results] returns exactly when every file whose
    name ends with [_terms.txt] is parsed without an exception, and so
    does the constructor of the updater; one record file that the parser
    rejects keeps the monitor from starting. *)
Theorem results_load_iff_every_record_parses (md5 : str → str)
    (order : SetOrder) (results_directory : dict str) :
  ((∃ results,
      Update.load_term_extraction_results order results_directory = Ok results)
   ↔ Forall (λ entry : str * str,
               endswith entry.1 "_terms.txt" = true →
               ∃ parsed,
                 Update.parse_term_extraction_results order entry.2 = Ok parsed)
            results_directory)
  ∧ ((∃ self, Update.init md5 order results_directory = Ok self)
     ↔ ∃ results,
         Update.load_term_extraction_results order results_directory
         = Ok results).
Proof.
  split.
  - apply for_each_returns_iff. intros results [name content]. cbn [fst snd].
    destruct (endswith name "_terms.txt").
    + destruct (Update.parse_term_extraction_results order content); cbn.
      * split; [by eauto | by eexists].
      * split; [by intros [? ?] | intros H; by destruct (H eq_refl)].
    + split; [done | by eexists].
  - unfold Update.init.
    destruct (Update.load_term_extraction_results order results_directory);
      cbn; split; try (by eexists); by intros [? ?].
Qed.

Lemma compute_initial_hashes_selects (md5 : str → str)
    (results_directory : dict str) :
  NoDup (dict_keys results_directory) →
  Update.compute_initial_hashes md5 results_directory
  = (λ entry : str * str, (entry.1, md5 entry.2))
      <$> filter (λ entry, endswith entry.1 "_terms.txt" = true)
                 results_directory.
Proof.
  intros Hnd. unfold Update.compute_initial_hashes.
  exact (foldl_select_entries (λ name, endswith name "_terms.txt") md5
           results_directory [] Hnd).
Qed.

(** X14. Right after the updater has been constructed, a poll of the
    directory as it was reports no change: the results and the hashes
    stay, and the log says for every watched file, in the order of the
    directory listing, that it has not changed.  The watched files are
    the files whose name ends with [_terms.txt]. *)
Theorem first_poll_after_start_is_quiet (md5 : str → str) (order : SetOrder)
    (results_directory : dict str) (self : Update.updater) :
  NoDup (dict_keys results_directory) →
  Update.init md5 order results_directory = Ok self →
  dict_keys (Update.file_hashes self)
  = filter (λ name, endswith name "_terms.txt" = true)
           (dict_keys results_directory)
  ∧ Update.poll_tick md5 order results_directory self
    = Ok {| Update.term_extraction_results :=
              Update.term_extraction_results self;
            Update.file_hashes := Update.file_hashes self;
            Update.log :=
              Update.NoActualChange
                <$> dict_keys (Update.file_hashes self) |}.
Proof.
  intros Hnd. unfold Update.init.
  destruct (Update.load_term_extraction_results order results_directory)
    as [results|]; [|done].
  cbv beta iota delta [mbind result_bind]. intros [= <-].
  cbn [Update.file_hashes Update.term_extraction_results].
  rewrite compute_initial_hashes_selects by done. split.
  - unfold dict_keys. clear.
    induction results_directory as [|[name content] directory IH]; [done|].
    cbn [fmap list_fmap fst]. rewrite !filter_cons. cbn [fst].
    destruct (decide (endswith name "_terms.txt" = true));
      cbn [fmap list_fmap fst]; by rewrite IH.
  - unfold Update.poll_tick. cbn [Update.file_hashes].
    rewrite poll_loop_all_unchanged; [done|].
    intros k h (entry & [= -> ->] & [Hsuffix Hin]%list_elem_of_filter)%list_elem_of_fmap.
    destruct entry as [name content]. cbn.
    apply dict_get_Some_elem in Hin; [|done]. by rewrite Hin.
Qed.

(** ** Whole polls of the monitor *)

Lemma poll_file_keeps_load (md5 : str → str) (order : SetOrder)
    (results_directory : dict str) results (events : list Update.event)
    (self self' : Update.updater) (entry : str * str) :
  Update.load_term_extraction_results order results_directory = Ok results →
  Update.poll_file md5 order results_directory self entry = Ok self' →
  Update.term_extraction_results self = results
  ∧ events ⊆ Update.log self →
  Update.term_extraction_results self' = results
  ∧ events ⊆ Update.log self'.
Proof.
  intros Hload. unfold Update.poll_file, Update.compute_file_hash.
  destruct (dict_get entry.1 results_directory) as [content|]; [|done].
  cbv beta iota delta [mbind result_bind].
  destruct (bool_decide (md5 content ≠ entry.2)).
  - rewrite Hload. destruct (subscript results entry.1); [|done].
    intros [= <-] [_ Hlog]. cbn. split; [done|].
    intros event Hevent. apply elem_of_app. left. by apply Hlog.
  - intros [= <-] [Hresults Hlog]. cbn. split; [done|].
    intros event Hevent. apply elem_of_app. left. by apply Hlog.
Qed.

(** X15. A poll that returns after finding a watched file whose content
    no longer has the recorded hash has reloaded the whole results
    directory: the results of the updater are what
    [load_term_extraction_results] returns for the directory, and the log
    holds the notice of the modification and the display of the document
    as it is in the reloaded results. *)
Theorem changed_file_reloads_the_results (md5 : str → str) (order : SetOrder)
    (results_directory : dict str) (self self' : Update.updater)
    (file_path old_hash content : str) :
  Update.poll_tick md5 order results_directory self = Ok self' →
  (file_path, old_hash) ∈ Update.file_hashes self →
  dict_get file_path results_directory = Some content →
  md5 content ≠ old_hash →
  Update.load_term_extraction_results order results_directory
  = Ok (Update.term_extraction_results self')
  ∧ Update.DetectedModification file_path ∈ Update.log self'
  ∧ ∃ shown,
      dict_get file_path (Update.term_extraction_results self') = Some shown
      ∧ Update.DisplayedDocument file_path shown.1 shown.2
        ∈ Update.log self'.
Proof.
  unfold Update.poll_tick. intros Hrun Hin Hread Hne.
  apply list_elem_of_split in Hin as (before & after & Hentries).
  rewrite Hentries, for_each_app in Hrun.
  destruct (for_each _ before self) as [self1|]; [|done].
  cbv beta iota delta [mbind result_bind] in Hrun. cbn [for_each] in Hrun.
  destruct (Update.poll_file md5 order results_directory self1
              (file_path, old_hash)) as [self2|] eqn:Hstep; [|done].
  cbv beta iota delta [mbind result_bind] in Hrun.
  unfold Update.poll_file, Update.compute_file_hash in Hstep.
  cbn [fst snd] in Hstep. rewrite Hread in Hstep.
  cbv beta iota delta [mbind result_bind] in Hstep.
  rewrite bool_decide_eq_true_2 in Hstep by done.
  destruct (Update.load_term_extraction_results order results_directory)
    as [results|] eqn:Hload; [|done].
  unfold subscript in Hstep.
  destruct (dict_get file_path results) as [shown|] eqn:Hshown; [|done].
  injection Hstep as <-.
  destruct (for_each_preserves
              (Update.poll_file md5 order results_directory)
              (λ st, Update.term_extraction_results st = results
                     ∧ [Update.DetectedModification file_path;
                        Update.DisplayedDocument file_path shown.1 shown.2]
                       ⊆ Update.log st)
              after _ self' (λ st x st' Hx, poll_file_keeps_load md5 order
                 results_directory results _ st st' x Hload Hx) Hrun)
    as [Hresults Hlog].
  { cbn. split; [done|]. intros event Hevent. apply elem_of_app. by right. }
  rewrite Hresults. split; [done|]. split.
  - apply Hlog. left.
  - exists shown. split; [done|]. apply Hlog. right. left.
Qed.

Lemma tick_hashes (md5 : str → str) (order : SetOrder)
    (results_directory : dict str) (self self' : Update.updater) :
  NoDup (dict_keys (Update.file_hashes self)) →
  Update.poll_tick md5 order results_directory self = Ok self' →
  dict_keys (Update.file_hashes self') = dict_keys (Update.file_hashes self)
  ∧ ∀ k, k ∈ dict_keys (Update.file_hashes self) →
         dict_get k (Update.file_hashes self')
         = md5 <$> dict_get k results_directory.
Proof.
  intros Hnd Hrun.
  destruct (poll_loop_hashes md5 order results_directory _ self self' Hnd)
    as [Hkeys Hget]; [|done|].
  { intros k h Hin. by apply dict_get_Some_elem. }
  split; [done|]. intros k Hk. rewrite Hget. by rewrite decide_True.
Qed.

Lemma monitor_hashes (md5 : str → str) (order : SetOrder)
    (directory_states : list (dict str)) (self self' : Update.updater) :
  NoDup (dict_keys (Update.file_hashes self)) →
  Update.monitor_changes md5 order directory_states self = Ok self' →
  dict_keys (Update.file_hashes self') = dict_keys (Update.file_hashes self)
  ∧ ∀ results_directory,
      last directory_states = Some results_directory →
      ∀ k, k ∈ dict_keys (Update.file_hashes self) →
           dict_get k (Update.file_hashes self')
           = md5 <$> dict_get k results_directory.
Proof.
  unfold Update.monitor_changes. revert self.
  induction directory_states as [|state states IH]; intros self Hnd Hrun.
  - injection Hrun as <-. split; [done|]. by intros.
  - cbn [for_each] in Hrun.
    destruct (Update.poll_tick md5 order state self) as [self1|] eqn:Htick;
      [|done].
    cbv beta iota delta [mbind result_bind] in Hrun.
    destruct (tick_hashes md5 order state self self1 Hnd Htick)
      as [Hkeys1 Hget1].
    destruct (IH self1) as [Hkeys Hget]; [by rewrite Hkeys1 | done |].
    split; [by rewrite Hkeys, Hkeys1|].
    intros results_directory Hlast k Hk. destruct states as [|state' states].
    + injection Hlast as <-. injection Hrun as <-. by apply Hget1.
    + apply Hget; [done | by rewrite Hkeys1].
Qed.

(** X16. The files that the monitor watches are fixed when it starts:
    however the directory changes from one poll to the next, a run of
    [monitor_changes] that returns has the hash entries of the start, in
    the same order, each with the hash of the file as it is in the last
    state of the directory.  A file added to the directory later is never
    polled. *)
Theorem monitor_watches_the_files_of_the_start (md5 : str → str)
    (order : SetOrder) (directory_states : list (dict str))
    (self self' : Update.updater) :
  NoDup (dict_keys (Update.file_hashes self)) →
  Update.monitor_changes md5 order directory_states self = Ok self' →
  dict_keys (Update.file_hashes self') = dict_keys (Update.file_hashes self)
  ∧ ∀ results_directory,
      last directory_states = Some results_directory →
      ∀ k, k ∈ dict_keys (Update.file_hashes self) →
           dict_get k (Update.file_hashes self')
           = md5 <$> dict_get k results_directory.
Proof. apply monitor_hashes. Qed.

(** X17. A watched file that is deleted ends the monitor: when some state
    of the directory lacks a file that has a hash entry,
    [monitor_changes] raises, at that poll at the latest ([open] fails in
    [compute_file_hash] and nothing catches the exception). *)
Theorem deleted_file_stops_the_monitor (md5 : str → str) (order : SetOrder)
    (directory_states : list (dict str)) (self : Update.updater)
    (file_path : str) (results_directory : dict str) :
  NoDup (dict_keys (Update.file_hashes self)) →
  file_path ∈ dict_keys (Update.file_hashes self) →
  results_directory ∈ directory_states →
  dict_get file_path results_directory = None →
  ∃ e, Update.monitor_changes md5 order directory_states self = Raise e.
Proof.
  intros Hnd Hwatched Hstate Hgone.
  apply list_elem_of_split in Hstate as (before & after & ->).
  unfold Update.monitor_changes. rewrite for_each_app.
  destruct (for_each _ before self) as [self1|e] eqn:Hbefore;
    [|by exists e].
  cbv beta iota delta [mbind result_bind]. cbn [for_each].
  destruct (monitor_hashes md5 order before self self1 Hnd Hbefore)
    as [Hkeys _].
  destruct (Update.poll_tick md5 order results_directory self1)
    as [self2|e] eqn:Htick; [|by exists e].
  destruct (tick_hashes md5 order results_directory self1 self2)
    as [Hkeys2 Hget2]; [by rewrite Hkeys | done |].
  specialize (Hget2 file_path). rewrite Hkeys, Hgone in Hget2.
  specialize (Hget2 Hwatched). cbn in Hget2.
  apply dict_get_None in Hget2. destruct Hget2. by rewrite Hkeys2, Hkeys.
Qed.

(** ** Conversion of the PDF files *)

Lemma extract_loop (read_pages : str → result (list str))
    (pdfs texts : dict str) (log : list Pdf2text.event) :
  ∃ written,
    foldl (λ (state : dict str * list Pdf2text.event) (entry : str * str),
             if endswith entry.1 ".pdf" then
               match read_pages entry.2 with
               | Ok pages =>
                   (dict_set (replace entry.1 ".pdf" "_text.txt")
                      (Pdf2text.document_text pages) state.1,
                    state.2
                    ++ [Pdf2text.Extracting entry.1;
                        Pdf2text.SavedText
                          (replace entry.1 ".pdf" "_text.txt")])
               | Raise e =>
                   (state.1,
                    state.2 ++ [Pdf2text.Extracting entry.1;
                                Pdf2text.ExtractionError entry.1 e])
               end
             else state)
          (texts, log) pdfs
    = (written,
       log ++ concat
                ((λ entry : str * str,
                    [Pdf2text.Extracting entry.1;
                     match read_pages entry.2 with
                     | Ok _ => Pdf2text.SavedText
                                 (replace entry.1 ".pdf" "_text.txt")
                     | Raise e => Pdf2text.ExtractionError entry.1 e
                     end])
                 <$> filter (λ entry, endswith entry.1 ".pdf" = true) pdfs))
    ∧ (∀ name,
         (∀ filename bytes pages,
            (filename, bytes) ∈ pdfs →
            endswith filename ".pdf" = true →
            read_pages bytes = Ok pages →
            replace filename ".pdf" "_text.txt" ≠ name) →
         dict_get name written = dict_get name texts)
    ∧ (NoDup ((λ entry : str * str, replace entry.1 ".pdf" "_text.txt")
              <$> filter (λ entry, endswith entry.1 ".pdf" = true) pdfs) →
       ∀ filename bytes pages,
         (filename, bytes) ∈ pdfs →
         endswith filename ".pdf" = true →
         read_pages bytes = Ok pages →
         dict_get (replace filename ".pdf" "_text.txt") written
         = Some (Pdf2text.document_text pages)).
Proof.
  revert texts log. induction pdfs as [|[f b] pdfs IH]; intros texts log.
  - exists texts. cbn. rewrite app_nil_r. split; [done|]. split; [done|].
    intros _ ??? []%elem_of_nil.
  - cbn [foldl fst snd]. rewrite filter_cons. cbn [fst].
    destruct (endswith f ".pdf") eqn:Hsuffix.
    + rewrite decide_True by done. cbn [fmap list_fmap concat fst snd].
      destruct (read_pages b) as [pages|e] eqn:Hread.
      * destruct (IH (dict_set (replace f ".pdf" "_text.txt")
                        (Pdf2text.document_text pages) texts)
                     (log ++ [Pdf2text.Extracting f;
                              Pdf2text.SavedText
                                (replace f ".pdf" "_text.txt")]))
          as (written & -> & Hother & Hwritten).
        exists written. split; [by rewrite <- app_assoc|]. split.
        -- intros name Hname. rewrite Hother.
           ++ rewrite dict_get_set. rewrite decide_False; [done|].
              intros ->. by apply (Hname f b pages); [left|..].
           ++ intros f' b' pages' Hin. apply (Hname f' b' pages').
              by right.
        -- intros [Hf Hnd]%NoDup_cons f' b' pages' Hin Hsuffix' Hread'.
           apply elem_of_cons in Hin as [[= -> ->]|Hin];
             [|by apply (Hwritten Hnd f' b' pages')].
           rewrite Hread in Hread'. injection Hread' as <-.
           rewrite Hother.
           ++ rewrite dict_get_set. by rewrite decide_True.
           ++ intros f2 b2 pages2 Hin Hsuffix2 _ Heq. apply Hf.
              apply list_elem_of_fmap. exists (f2, b2). split; [done|].
              by apply list_elem_of_filter.
      * destruct (IH texts (log ++ [Pdf2text.Extracting f;
                                    Pdf2text.ExtractionError f e]))
          as (written & -> & Hother & Hwritten).
        exists written. split; [by rewrite <- app_assoc|]. split.
        -- intros name Hname. apply Hother.
           intros f' b' pages' Hin. apply (Hname f' b' pages'). by right.
        -- intros [Hf Hnd]%NoDup_cons f' b' pages' Hin Hsuffix' Hread'.
           apply elem_of_cons in Hin as [[= -> ->]|Hin];
             [|by apply (Hwritten Hnd f' b' pages')].
           by rewrite Hread in Hread'.
    + rewrite decide_False by (by intros ?).
      destruct (IH texts log) as (written & -> & Hother & Hwritten).
      exists written. split; [done|]. split.
      * intros name Hname. apply Hother.
        intros f' b' pages' Hin. apply (Hname f' b' pages'). by right.
      * intros Hnd f' b' pages' Hin Hsuffix' Hread'.
        apply elem_of_cons in Hin as [[= -> ->]|Hin];
          [|by apply (Hwritten Hnd f' b' pages')].
        by rewrite Hsuffix in Hsuffix'.
Qed.

(** X18. [extract_text_from_pdf] converts each PDF file on its own: for
    an existing PDF directory it returns a text directory and a log that
    has, for every file whose name ends with [.pdf] and in the order of
    the listing, the start of the extraction followed by the saving of
    the text or by the error of that file.  A file that cannot be read
    costs only its own text; every readable file whose text name is that
    of no other PDF has its text, and the files of the text directory
    with other names are left as they were.  When the PDF directory is
    missing, the text directory is returned untouched, not even
    created. *)
Theorem pdf_failures_do_not_stop_the_batch
    (read_pages : str → result (list str)) (pdfs : dict str)
    (text_directory : option (dict str)) :
  (∃ texts,
     Pdf2text.extract_text_from_pdf read_pages (Some pdfs) text_directory
     = (Some texts,
        concat ((λ entry : str * str,
                   [Pdf2text.Extracting entry.1;
                    match read_pages entry.2 with
                    | Ok _ => Pdf2text.SavedText
                                (replace entry.1 ".pdf" "_text.txt")
                    | Raise e => Pdf2text.ExtractionError entry.1 e
                    end])
                <$> filter (λ entry, endswith entry.1 ".pdf" = true) pdfs))
     ∧ (∀ name,
          (∀ filename bytes pages,
             (filename, bytes) ∈ pdfs →
             endswith filename ".pdf" = true →
             read_pages bytes = Ok pages →
             replace filename ".pdf" "_text.txt" ≠ name) →
          dict_get name texts = dict_get name (default [] text_directory))
     ∧ (NoDup ((λ entry : str * str, replace entry.1 ".pdf" "_text.txt")
               <$> filter (λ entry, endswith entry.1 ".pdf" = true) pdfs) →
        ∀ filename bytes pages,
          (filename, bytes) ∈ pdfs →
          endswith filename ".pdf" = true →
          read_pages bytes = Ok pages →
          dict_get (replace filename ".pdf" "_text.txt") texts
          = Some (Pdf2text.document_text pages)))
  ∧ Pdf2text.extract_text_from_pdf read_pages None text_directory
    = (text_directory, [Pdf2text.MissingDirectory]).
Proof.
  split; [|done]. unfold Pdf2text.extract_text_from_pdf.
  destruct (extract_loop read_pages pdfs (default [] text_directory) [])
    as (written & -> & Hother & Hwritten).
  by exists written.
Qed.

(** ** Counts of the evaluation *)

Lemma sum_range_fmap {A : Type} (f : A → bool) (g : nat → bool) (l : list A) :
  (∀ i x, l !! i = Some x → g i = f x) →
  Evaluate.sum_range (length l) g = length (filter (λ x, f x = true) l).
Proof.
  unfold Evaluate.sum_range. revert g.
  induction l as [|x l IH]; intros g Hg; [done|].
  cbn [length seq fmap list_fmap sum_list]. rewrite <- fmap_S_seq.
  rewrite <- list_fmap_compose.
  change ((λ i, Nat.b2n (g i)) ∘ S) with (λ i, Nat.b2n ((g ∘ S) i)).
  rewrite (IH (g ∘ S)).
  - rewrite filter_cons, (Hg 0 x eq_refl).
    destruct (f x); [by rewrite decide_True | by rewrite decide_False].
  - intros i y Hy. by apply (Hg (S i)).
Qed.

Lemma length_filter_set_iter (order : SetOrder) (P : str → Prop)
    `{!∀ x, Decision (P x)} (s : gset str) :
  length (filter P (order s)) = size (filter P s).
Proof.
  rewrite (set_iter_perm order s). unfold size, set_size. cbn.
  apply Permutation_length, NoDup_Permutation.
  - apply NoDup_filter, NoDup_elements.
  - apply NoDup_elements.
  - intros x. rewrite list_elem_of_filter, !elem_of_elements, elem_of_filter.
    done.
Qed.

Lemma confusion_count (order : SetOrder) (f : str → bool)
    (ground_truth_terms extracted_terms : list str) (g : nat → bool) :
  (∀ i term,
     Evaluate.all_terms order ground_truth_terms extracted_terms !! i
     = Some term → g i = f term) →
  Evaluate.sum_range
    (length (Evaluate.y_true order ground_truth_terms extracted_terms)) g
  = size (filter (λ term, f term = true)
            (list_to_set (ground_truth_terms ++ extracted_terms)
             : gset str)).
Proof.
  intros Hg. unfold Evaluate.y_true. rewrite length_fmap.
  rewrite (sum_range_fmap f g _ Hg). apply length_filter_set_iter.
Qed.

Lemma labels_lookup (order : SetOrder)
    (ground_truth_terms extracted_terms : list str) (i : nat) (term : str) :
  Evaluate.all_terms order ground_truth_terms extracted_terms !! i
  = Some term →
  Evaluate.y_true order ground_truth_terms extracted_terms !!! i
  = bool_decide (term ∈ ground_truth_terms)
  ∧ Evaluate.y_pred order ground_truth_terms extracted_terms !!! i
    = bool_decide (term ∈ extracted_terms).
Proof.
  intros Hi. unfold Evaluate.y_true, Evaluate.y_pred.
  split; apply list_lookup_total_correct; by rewrite list_lookup_fmap, Hi.
Qed.

(** X19. The counts that [evaluate_precision_recall] logs are sizes of
    sets: the true positives are the terms that are in both lists, the
    false positives the extracted terms that are not in the ground truth
    and the false negatives the ground-truth terms that were not
    extracted.  A term repeated in a list counts once, and neither the
    order of the lists nor the iteration order of the set matters. *)
Theorem confusion_counts_are_set_sizes {score : Type}
    (precision_score recall_score : list bool → list bool → score)
    (order : SetOrder) (ground_truth_terms extracted_terms : list str) :
  let counts :=
    (Evaluate.evaluate_precision_recall precision_score recall_score order
       ground_truth_terms extracted_terms).1 in
  let truth : gset str := list_to_set ground_truth_terms in
  let extracted : gset str := list_to_set extracted_terms in
  Evaluate.true_positives counts = size (truth ∩ extracted)
  ∧ Evaluate.false_positives counts = size (extracted ∖ truth)
  ∧ Evaluate.false_negatives counts = size (truth ∖ extracted)
  ∧ Evaluate.true_positives counts + Evaluate.false_positives counts
    = size extracted
  ∧ Evaluate.true_positives counts + Evaluate.false_negatives counts
    = size truth.
Proof.
  intros counts truth extracted.
  assert (Evaluate.true_positives counts = size (truth ∩ extracted)) as Htp.
  { unfold counts, Evaluate.evaluate_precision_recall.
    cbn [fst Evaluate.true_positives].
    rewrite (confusion_count order
               (λ term, bool_decide (term ∈ ground_truth_terms)
                        && bool_decide (term ∈ extracted_terms))).
    - f_equal. apply set_eq. intros term. unfold truth, extracted.
      rewrite elem_of_filter, elem_of_list_to_set, elem_of_intersection,
        !elem_of_list_to_set, elem_of_app, andb_true_iff,
        !bool_decide_eq_true. tauto.
    - intros i term Hi.
      destruct (labels_lookup order _ _ i term Hi) as [-> ->]. done. }
  assert (Evaluate.false_positives counts = size (extracted ∖ truth)) as Hfp.
  { unfold counts, Evaluate.evaluate_precision_recall.
    cbn [fst Evaluate.false_positives].
    rewrite (confusion_count order
               (λ term, bool_decide (term ∈ extracted_terms)
                        && negb (bool_decide (term ∈ ground_truth_terms)))).
    - f_equal. apply set_eq. intros term. unfold truth, extracted.
      rewrite elem_of_filter, elem_of_list_to_set, elem_of_difference,
        !elem_of_list_to_set, elem_of_app, andb_true_iff, negb_true_iff,
        bool_decide_eq_true, bool_decide_eq_false. tauto.
    - intros i term Hi.
      destruct (labels_lookup order _ _ i term Hi) as [-> ->]. done. }
  assert (Evaluate.false_negatives counts = size (truth ∖ extracted)) as Hfn.
  { unfold counts, Evaluate.evaluate_precision_recall.
    cbn [fst Evaluate.false_negatives].
    rewrite (confusion_count order
               (λ term, bool_decide (term ∈ ground_truth_terms)
                        && negb (bool_decide (term ∈ extracted_terms)))).
    - f_equal. apply set_eq. intros term. unfold truth, extracted.
      rewrite elem_of_filter, elem_of_list_to_set, elem_of_difference,
        !elem_of_list_to_set, elem_of_app, andb_true_iff, negb_true_iff,
        bool_decide_eq_true, bool_decide_eq_false. tauto.
    - intros i term Hi.
      destruct (labels_lookup order _ _ i term Hi) as [-> ->]. done. }
  split_and!; try done.
  - rewrite Htp, Hfp, <- size_union by set_solver. f_equal.
    apply set_eq. intros term.
    rewrite elem_of_union, elem_of_intersection, elem_of_difference.
    destruct (decide (term ∈ truth)); tauto.
  - rewrite Htp, Hfn, <- size_union by set_solver. f_equal.
    apply set_eq. intros term.
    rewrite elem_of_union, elem_of_intersection, elem_of_difference.
    destruct (decide (term ∈ extracted)); tauto.
Qed.

(** ** Counts of the mapping efficiency *)

Lemma filter_none {A : Type} (P : A → Prop) `{!∀ x, Decision (P x)}
    (l : list A) :
  (∀ x, ¬ P x) → filter P l = [].
Proof.
  intros HP. induction l as [|x l IH]; [done|].
  rewrite filter_cons, decide_False by apply HP. exact IH.
Qed.

Section Similarity.

Variables ratio partial_ratio token_set_ratio : str → str → nat.

Lemma best_similarity_over (ground_truth_sections : list str)
    (extracted_section : str) :
  75 < Evaluate.best_similarity ratio partial_ratio token_set_ratio
         ground_truth_sections extracted_section
  ↔ Exists (λ ground_truth_section,
              75 < ratio extracted_section ground_truth_section
              ∨ 75 < partial_ratio extracted_section ground_truth_section
              ∨ 75 < token_set_ratio extracted_section ground_truth_section)
           ground_truth_sections.
Proof.
  unfold Evaluate.best_similarity.
  enough (∀ best,
            75 < foldl (λ best g,
                          Nat.max best
                            (Nat.max (ratio extracted_section g)
                               (Nat.max (partial_ratio extracted_section g)
                                  (token_set_ratio extracted_section g))))
                       best ground_truth_sections
            ↔ 75 < best
              ∨ Exists (λ g, 75 < ratio extracted_section g
                             ∨ 75 < partial_ratio extracted_section g
                             ∨ 75 < token_set_ratio extracted_section g)
                       ground_truth_sections) as Hgen.
  { rewrite Hgen. split; [intros [?|?]; [lia | done] | by right]. }
  induction ground_truth_sections as [|g gs IH]; intros best; cbn [foldl].
  - rewrite Exists_nil. tauto.
  - rewrite IH, Exists_cons, !Nat.max_lt_iff. tauto.
Qed.

Lemma sections_loop (ground_truth_sections sections : list str)
    (counts : nat * nat) :
  foldl (λ (counts : nat * nat) extracted_section,
           (if bool_decide
                 (75 < Evaluate.best_similarity ratio partial_ratio
                         token_set_ratio ground_truth_sections
                         extracted_section)
            then S counts.1 else counts.1,
            S counts.2))
        counts sections
  = (counts.1
     + length
         (filter
            (λ extracted_section,
               Exists (λ g, 75 < ratio extracted_section g
                            ∨ 75 < partial_ratio extracted_section g
                            ∨ 75 < token_set_ratio extracted_section g)
                      ground_truth_sections)
            sections),
     counts.2 + length sections).
Proof.
  revert counts. induction sections as [|s sections IH]; intros [c t].
  - cbn. f_equal; lia.
  - cbn [foldl]. rewrite IH, filter_cons. cbn [fst snd length].
    destruct (decide (Exists _ ground_truth_sections)) as [Hs|Hs].
    + rewrite bool_decide_eq_true_2 by by apply best_similarity_over.
      cbn [length]. f_equal; lia.
    + rewrite bool_decide_eq_false_2 by by rewrite best_similarity_over.
      f_equal; lia.
Qed.

Lemma mapping_loop (ground_truth_map extracted_map : dict (list str))
    (counts : nat * nat) :
  foldl (λ (counts : nat * nat) (entry : str * list str),
           match dict_get entry.1 ground_truth_map with
           | Some ground_truth_sections =>
               foldl (λ (counts : nat * nat) extracted_section,
                        (if bool_decide
                              (75 < Evaluate.best_similarity ratio
                                      partial_ratio token_set_ratio
                                      ground_truth_sections
                                      extracted_section)
                         then S counts.1 else counts.1,
                         S counts.2))
                     counts entry.2
           | None => counts
           end)
        counts extracted_map
  = (counts.1
     + sum_list
         ((λ entry : str * list str,
             length
               (filter
                  (λ extracted_section,
                     Exists (λ g, 75 < ratio extracted_section g
                                  ∨ 75 < partial_ratio extracted_section g
                                  ∨ 75 < token_set_ratio extracted_section g)
                            (default [] (dict_get entry.1 ground_truth_map)))
                  entry.2))
          <$> extracted_map),
     counts.2
     + sum_list
         ((λ entry : str * list str, length entry.2)
          <$> filter (λ entry, entry.1 ∈ dict_keys ground_truth_map)
                     extracted_map)).
Proof.
  revert counts.
  induction extracted_map as [|[term sections] extracted_map IH];
    intros [c t].
  - cbn. f_equal; lia.
  - cbn [foldl fst snd]. rewrite filter_cons. cbn [fst].
    destruct (dict_get term ground_truth_map) as [gs|] eqn:Hget.
    + rewrite sections_loop, IH. cbn [fst snd].
      rewrite decide_True by (apply dict_get_is_Some; by rewrite Hget).
      cbn [fmap list_fmap sum_list fst snd]. rewrite Hget.
      cbn [default from_option]; unfold id.
      f_equal; lia.
    + rewrite IH. cbn [fst snd].
      rewrite decide_False.
      2:{ intros Hin%dict_get_is_Some. rewrite Hget in Hin.
          by destruct Hin. }
      cbn [fmap list_fmap sum_list fst snd]. rewrite Hget.
      cbn [default from_option]; unfold id.
      rewrite (filter_none _ sections); [cbn [length]; f_equal; lia|].
      intros s Hs. by apply Exists_nil in Hs.
Qed.

End Similarity.

(** X20. The two counts behind the mapping efficiency.  The total is the
    number of sections of the extracted terms that are keys of the
    ground-truth map; a section is counted as correct exactly when one of
    the three similarity ratios is above 75 for some ground-truth section
    of its term.  So the correct mappings never exceed the total (the
    returned quotient is at most 1), a term that the ground truth maps to
    no section adds to the total only, and extracted terms that the
    ground truth does not have are not counted at all. *)
Theorem mapping_counts_by_term
    (ratio partial_ratio token_set_ratio : str → str → nat)
    (ground_truth_map extracted_map : dict (list str)) :
  let counts :=
    Evaluate.evaluate_mapping_efficiency ratio partial_ratio
      token_set_ratio ground_truth_map extracted_map in
  counts.1
  = sum_list
      ((λ entry : str * list str,
          length
            (filter
               (λ extracted_section,
                  Exists (λ g, 75 < ratio extracted_section g
                               ∨ 75 < partial_ratio extracted_section g
                               ∨ 75 < token_set_ratio extracted_section g)
                         (default [] (dict_get entry.1 ground_truth_map)))
               entry.2))
       <$> extracted_map)
  ∧ counts.2
    = sum_list
        ((λ entry : str * list str, length entry.2)
         <$> filter (λ entry, entry.1 ∈ dict_keys ground_truth_map)
                    extracted_map)
  ∧ counts.1 ≤ counts.2.
Proof.
  intros counts. unfold counts, Evaluate.evaluate_mapping_efficiency.
  rewrite mapping_loop. cbn [fst snd]. split; [done|]. split; [done|].
  clear counts. induction extracted_map as [|[term sections] l IH]; [done|].
  rewrite filter_cons. cbn [fmap list_fmap sum_list fst snd].
  destruct (decide (term ∈ dict_keys ground_truth_map)) as [Hin|Hin].
  - cbn [fmap list_fmap sum_list fst snd].
    unfold id. rewrite !Nat.add_0_l in *.
    apply Nat.add_le_mono; [apply length_filter | exact IH].
  - apply dict_get_None in Hin. rewrite Hin. cbn [default from_option]; unfold id.
    rewrite (filter_none _ sections); [|].
    { unfold id. rewrite !Nat.add_0_l in *. exact IH. }
    intros s Hs. by apply Exists_nil in Hs.
Qed.

(** ** The evaluation run *)

Lemma load_loop_keys {V : Type} (parse : str → result V)
    (directory : dict str) (loaded results : dict V) :
  NoDup (dict_keys loaded ++ dict_keys directory) →
  for_each (λ results entry,
              if endswith entry.1 "_terms.txt" then
                parsed ← parse entry.2;
                Ok (dict_set entry.1 parsed results)
              else Ok results)
           directory loaded = Ok results →
  dict_keys results
  = dict_keys loaded
    ++ filter (λ name, endswith name "_terms.txt" = true)
              (dict_keys directory).
Proof.
  unfold dict_keys. revert loaded.
  induction directory as [|[name content] directory IH]; intros loaded Hnd.
  - cbn. intros [= <-]. by rewrite app_nil_r.
  - cbn [for_each fst snd fmap list_fmap]. rewrite filter_cons.
    cbn [fmap list_fmap fst] in Hnd.
    assert (name ∉ loaded.*1) as Hfresh.
    { apply NoDup_app in Hnd as (_ & Hdisj & _). intros Hin.
      apply (Hdisj _ Hin). left. }
    destruct (endswith name "_terms.txt") eqn:Hsuffix.
    + rewrite decide_True by done.
      destruct (parse content) as [parsed|]; [|done].
      cbv beta iota delta [mbind result_bind].
      rewrite dict_set_fresh by done. intros Hrun.
      apply IH in Hrun.
      * rewrite Hrun, fmap_app. by rewrite <- app_assoc.
      * rewrite fmap_app, <- app_assoc. exact Hnd.
    + rewrite decide_False by (by intros ?). apply IH.
      apply NoDup_app in Hnd as (Hacc & Hdisj & Hdir).
      apply NoDup_cons in Hdir as [_ Hdir].
      apply NoDup_app. split_and!; [done | | done].
      intros x Hx Hin. apply (Hdisj x Hx). by right.
Qed.

Lemma evaluate_load_returns_iff (directory : dict str) :
  (∃ terms_map, Evaluate.load_terms_and_map directory = Ok terms_map)
  ↔ Forall (λ entry : str * str,
              endswith entry.1 "_terms.txt" = true →
              ∃ parsed,
                Evaluate.parse_term_extraction_results entry.2 = Ok parsed)
           directory.
Proof.
  apply for_each_returns_iff. intros results [name content]. cbn [fst snd].
  destruct (endswith name "_terms.txt").
  - destruct (Evaluate.parse_term_extraction_results content); cbn.
    + split; [by eauto | by eexists].
    + split; [by intros [? ?] | intros H; by destruct (H eq_refl)].
  - split; [done | by eexists].
Qed.

Lemma omap_present_keys {V W X : Type} (f : str → V → W → X)
    (g : X → str) (m : dict V) (m' : dict W) :
  (∀ k v w, g (f k v w) = k) →
  g <$> omap (M := list)
          (λ entry : str * V,
             match dict_get entry.1 m' with
             | Some w => Some (f entry.1 entry.2 w)
             | None => None
             end) m
  = filter (λ name, name ∈ dict_keys m') (dict_keys m).
Proof.
  intros Hg. unfold dict_keys.
  induction m as [|[k v] m IH]; [done|].
  cbn [omap list_omap fmap list_fmap fst snd]. rewrite filter_cons.
  destruct (dict_get k m') as [w|] eqn:Hget.
  - rewrite decide_True by (apply dict_get_is_Some; by rewrite Hget).
    cbn [fmap list_fmap]. rewrite Hg. f_equal. exact IH.
  - rewrite decide_False by (by apply dict_get_None). exact IH.
Qed.

(** X21. The evaluation run.  When the parser rejects a file of either
    directory whose name ends with [_terms.txt], [main] raises: one
    rejected record, of the ground truth or of the results, ends the run
    before anything is evaluated.  A run that returns has evaluated the
    files with that suffix that are in both directories, in the order of
    the ground-truth listing; a ground-truth file without extracted
    results is skipped, and so is an extracted file without ground
    truth. *)
Theorem evaluation_covers_the_common_records {score : Type}
    (precision_score recall_score : list bool → list bool → score)
    (ratio partial_ratio token_set_ratio : str → str → nat)
    (order : SetOrder) (ground_truth_directory results_directory : dict str) :
  (¬ Forall (λ entry : str * str,
               endswith entry.1 "_terms.txt" = true →
               ∃ parsed,
                 Evaluate.parse_term_extraction_results entry.2 = Ok parsed)
            (ground_truth_directory ++ results_directory) →
   ∃ e,
     Evaluate.main precision_score recall_score ratio partial_ratio
       token_set_ratio order ground_truth_directory results_directory
     = Raise e)
  ∧ (NoDup (dict_keys ground_truth_directory) →
     NoDup (dict_keys results_directory) →
     ∀ report,
       Evaluate.main precision_score recall_score ratio partial_ratio
         token_set_ratio order ground_truth_directory results_directory
       = Ok report →
       (λ line, line.1.1) <$> report
       = filter (λ name, endswith name "_terms.txt" = true
                         ∧ name ∈ dict_keys results_directory)
                (dict_keys ground_truth_directory)).
Proof.
  unfold Evaluate.main. split.
  - rewrite Forall_app, <- !evaluate_load_returns_iff.
    destruct (Evaluate.load_terms_and_map ground_truth_directory)
      as [ground_truth|e]; cbv beta iota delta [mbind result_bind];
      [|by exists e].
    destruct (Evaluate.load_terms_and_map results_directory)
      as [extracted_results|e]; cbv beta iota delta [mbind result_bind];
      [|by exists e].
    intros []. split; by eexists.
  - intros Hnd Hnd' report.
    destruct (Evaluate.load_terms_and_map ground_truth_directory)
      as [ground_truth|] eqn:Htruth; [|done].
    cbv beta iota delta [mbind result_bind].
    destruct (Evaluate.load_terms_and_map results_directory)
      as [extracted_results|] eqn:Hresults; [|done].
    cbv beta iota delta [mbind result_bind]. intros [= <-].
    rewrite (omap_present_keys
               (λ name (truth extracted : list str * dict (list str)),
                  (name,
                   Evaluate.evaluate_precision_recall precision_score
                     recall_score order truth.1 extracted.1,
                   Evaluate.evaluate_mapping_efficiency ratio partial_ratio
                     token_set_ratio truth.2 extracted.2))
               (λ line, line.1.1) ground_truth extracted_results)
      by done.
    rewrite (load_loop_keys Evaluate.parse_term_extraction_results
               ground_truth_directory [] ground_truth Hnd Htruth).
    rewrite (load_loop_keys Evaluate.parse_term_extraction_results
               results_directory [] extracted_results Hnd' Hresults).
    cbn [dict_keys fmap list_fmap app]. rewrite list_filter_filter.
    apply filter_ext_elem. intros name _.
    rewrite list_elem_of_filter. tauto.
Qed.

(** ** From the PDF file to the record *)

Lemma extract_loop_NoDup (read_pages : str → result (list str))
    (pdfs texts : dict str) (log : list Pdf2text.event) :
  NoDup (dict_keys texts) →
  NoDup (dict_keys
           (foldl (λ (state : dict str * list Pdf2text.event)
                     (entry : str * str),
                     if endswith entry.1 ".pdf" then
                       match read_pages entry.2 with
                       | Ok pages =>
                           (dict_set (replace entry.1 ".pdf" "_text.txt")
                              (Pdf2text.document_text pages) state.1,
                            state.2
                            ++ [Pdf2text.Extracting entry.1;
                                Pdf2text.SavedText
                                  (replace entry.1 ".pdf" "_text.txt")])
                       | Raise e =>
                           (state.1,
                            state.2 ++ [Pdf2text.Extracting entry.1;
                                        Pdf2text.ExtractionError entry.1 e])
                       end
                     else state)
                  (texts, log) pdfs).1).
Proof.
  revert texts log. induction pdfs as [|[f b] pdfs IH]; intros texts log Hnd;
    [done|].
  cbn [foldl fst snd]. destruct (endswith f ".pdf"); [|by apply IH].
  destruct (read_pages b); apply IH; [by apply dict_set_NoDup | done].
Qed.

(** X22. From the PDF file to the record.  When the models are loaded
    and the candidate source returns for every text, [preprocess]
    returns, and a PDF file that can be read ends as a record in the
    results directory: provided its text name is that of no other PDF
    file and its record name that of no other text file, the results
    directory has, under its name with [.pdf] replaced by [_text.txt] and
    then [_text.txt] by [_terms.txt], the rendering of what
    [process_document] returns for the text of its pages as it is read
    back from the text file (a carriage return in a page comes back as a
    line feed), with the terms of the ground-truth directory.  When
    loading the models raises, [preprocess] raises after the conversion,
    with the results directory untouched. *)
Theorem readable_pdf_ends_as_record (read_pages : str → result (list str))
    (order : SetOrder) (load_ner_model : result ())
    (extract_key_terms : str → result (gset str))
    (pdf_directory text_directory results_directory
       ground_truth_directory : dict str) :
  (∀ text, ∃ candidates, extract_key_terms text = Ok candidates) →
  NoDup (dict_keys text_directory) →
  ∃ texts log,
    Pdf2text.extract_text_from_pdf read_pages (Some pdf_directory)
      (Some text_directory)
    = (Some texts, log)
    ∧ match load_ner_model with
      | Raise e =>
          Main.preprocess read_pages order (Raise e) extract_key_terms
            pdf_directory text_directory results_directory
            ground_truth_directory
          = (texts, results_directory, log, Raise e)
      | Ok loaded =>
          ∃ written,
            Main.preprocess read_pages order (Ok loaded) extract_key_terms
              pdf_directory text_directory results_directory
              ground_truth_directory
            = (texts, written, log, Ok ())
            ∧ (NoDup ((λ entry : str * str,
                         replace entry.1 ".pdf" "_text.txt")
                      <$> filter (λ entry, endswith entry.1 ".pdf" = true)
                                 pdf_directory) →
               NoDup ((λ entry : str * str,
                         replace entry.1 "_text.txt" "_terms.txt")
                      <$> filter (λ entry,
                                    endswith entry.1 "_text.txt" = true)
                                 texts) →
               ∀ filename bytes pages,
                 (filename, bytes) ∈ pdf_directory →
                 endswith filename ".pdf" = true →
                 read_pages bytes = Ok pages →
                 ∃ terms record,
                   process_document order extract_key_terms
                     (load_ground_truth_terms ground_truth_directory)
                     (universal_newlines (Pdf2text.document_text pages))
                   = Ok (terms, record)
                   ∧ dict_get (replace (replace filename ".pdf" "_text.txt")
                                 "_text.txt" "_terms.txt") written
                     = Some (render_results terms record))
      end.
Proof.
  intros Hextract Hnd. unfold Main.preprocess, Pdf2text.extract_text_from_pdf.
  cbn [default from_option]. unfold id.
  pose proof (extract_loop_NoDup read_pages pdf_directory text_directory []
                Hnd) as Htexts.
  destruct (extract_loop read_pages pdf_directory text_directory [])
    as (texts & Hloop & _ & Htext).
  rewrite Hloop in Htexts |- *. cbn [fst] in Htexts.
  exists texts, (concat
                   ((λ entry : str * str,
                       [Pdf2text.Extracting entry.1;
                        match read_pages entry.2 with
                        | Ok _ => Pdf2text.SavedText
                                    (replace entry.1 ".pdf" "_text.txt")
                        | Raise e => Pdf2text.ExtractionError entry.1 e
                        end])
                    <$> filter (λ entry, endswith entry.1 ".pdf" = true)
                               pdf_directory)).
  split; [done|]. destruct load_ner_model as [[]|e]; [|done].
  destruct (process_files_returns order extract_key_terms texts
              results_directory
              (load_ground_truth_terms ground_truth_directory) Htexts)
    as (written & -> & _ & Hrecord).
  { intros f t _ _. apply Hextract. }
  exists written. split; [done|].
  intros Hnames Hrecords filename bytes pages Hin Hsuffix Hread.
  apply (Hrecord Hrecords).
  - apply dict_get_Some_elem; [done|]. by apply (Htext Hnames filename bytes).
  - apply replace_suffix; [done | apply unbordered_pdf | done].
Qed.

(** ** More theorems at concrete inputs *)

(** A ground-truth file: bullet lines only. *)
Lemma files_without_term_lines_parse_witness :
  (∃ parsed,
     Update.parse_term_extraction_results elements_order
       ("- lease" ++ [LF] ++ "- tenant" ++ [LF])
     = Ok parsed)
  ∧ (∃ parsed,
       Evaluate.parse_term_extraction_results
         ("- lease" ++ [LF] ++ "- tenant" ++ [LF])
       = Ok parsed).
Proof.
  apply (files_without_term_lines_parse elements_order).
  apply (bool_decide_unpack _). vm_compute. exact I.
Defined.

(** The separator line between two bullet lines. *)
Lemma unrecognized_lines_are_ignored_witness :
  Update.parse_term_extraction_results elements_order
    (unlines ([("- lease" : str)] ++ ("---" : str) :: [("- tenant" : str)]))
  = Update.parse_term_extraction_results elements_order
      (unlines ([("- lease" : str)] ++ [("- tenant" : str)]))
  ∧ Evaluate.parse_term_extraction_results
      (unlines ([("- lease" : str)] ++ ("---" : str) :: [("- tenant" : str)]))
    = Evaluate.parse_term_extraction_results
        (unlines ([("- lease" : str)] ++ [("- tenant" : str)])).
Proof.
  apply (unrecognized_lines_are_ignored elements_order).
  - unfold one_line. apply (bool_decide_unpack _). vm_compute. exact I.
  - unfold one_line. apply (bool_decide_unpack _). vm_compute. exact I.
  - unfold one_line. apply (bool_decide_unpack _). vm_compute. exact I.
  - unfold unrecognized. split_and!; reflexivity.
Defined.

(** The record file of [watched_directory]. *)
Lemma parsed_terms_are_the_keys_witness :
  NoDup [("lease" : str)]
  ∧ ∀ term, term ∈ [("lease" : str)]
            ↔ term ∈ dict_keys [(("lease" : str), ([] : list str))].
Proof.
  destruct (parsed_terms_are_the_keys elements_order ("- lease" ++ [LF])
              [("lease" : str)] [(("lease" : str), [])])
    as (Hnd & Hkeys & _); [|by split].
  vm_compute. reflexivity.
Defined.

(** A text file with a carriage return inside a section: the document is
    processed with a line feed in its place, which the section context
    turns into a space. *)
Lemma carriage_return_is_read_as_line_feed :
  process_files elements_order (Ok ())
    (λ text, Ok {[ ("alpha" : str) ]})
    [(("a_text.txt" : str), "1. Alpha" ++ ["013"%char] ++ "beta")] []
    {[ ("alpha" : str) ]}
  = ([(("a_terms.txt" : str),
       render_results [("alpha" : str)]
         [(("alpha" : str), [("1. Alpha beta" : str)])])],
     Ok ()).
Proof. vm_compute. reflexivity. Qed.

(** One document, no record yet, the models loaded. *)
Lemma process_files_writes_the_records_witness :
  ∃ written,
    process_files elements_order (Ok ()) proposing_two_terms lease_directory
      [] two_terms
    = (written, Ok ()).
Proof.
  destruct (process_files_writes_the_records elements_order (Ok ())
              proposing_two_terms lease_directory [] two_terms)
    as (written & Hrun & _).
  - apply (bool_decide_unpack _). vm_compute. exact I.
  - intros filename content _ _. by exists two_terms.
  - by exists written.
Defined.

(** The monitor started on [watched_directory]. *)
Lemma first_poll_after_start_is_quiet_witness :
  Update.poll_tick content_digest elements_order watched_directory watching
  = Ok {| Update.term_extraction_results :=
            Update.term_extraction_results watching;
          Update.file_hashes := Update.file_hashes watching;
          Update.log :=
            Update.NoActualChange
              <$> dict_keys (Update.file_hashes watching) |}.
Proof.
  apply (first_poll_after_start_is_quiet content_digest elements_order
           watched_directory watching).
  - apply (bool_decide_unpack _). vm_compute. exact I.
  - vm_compute. reflexivity.
Defined.

(** A term is added to the watched record. *)
Lemma changed_file_reloads_the_results_witness :
  ∃ self',
    Update.poll_tick content_digest elements_order grown_directory watching
    = Ok self'
    ∧ Update.load_term_extraction_results elements_order grown_directory
      = Ok (Update.term_extraction_results self')
    ∧ Update.DetectedModification "lease_terms.txt" ∈ Update.log self'.
Proof.
  destruct (Update.poll_tick content_digest elements_order grown_directory
              watching) as [self'|e] eqn:Htick; [|by vm_compute in Htick].
  exists self'. split; [done|].
  destruct (changed_file_reloads_the_results content_digest elements_order
              grown_directory watching self' "lease_terms.txt"
              ("- lease" ++ [LF]) ("- lease" ++ [LF] ++ "- tenant" ++ [LF])
              Htick)
    as (Hload & Hlog & _); [| | |by split].
  - left.
  - reflexivity.
  - apply (bool_decide_unpack _). vm_compute. exact I.
Defined.

(** A second record file appears after the start. *)
Lemma monitor_watches_the_files_of_the_start_witness :
  ∃ self',
    Update.monitor_changes content_digest elements_order
      [watched_directory; joined_directory] watching
    = Ok self'
    ∧ dict_keys (Update.file_hashes self')
      = dict_keys (Update.file_hashes watching).
Proof.
  destruct (Update.monitor_changes content_digest elements_order
              [watched_directory; joined_directory] watching)
    as [self'|e] eqn:Hrun; [|by vm_compute in Hrun].
  exists self'. split; [done|].
  apply (monitor_watches_the_files_of_the_start content_digest elements_order
           [watched_directory; joined_directory] watching self');
    [|exact Hrun].
  apply (bool_decide_unpack _). vm_compute. exact I.
Defined.

(** The watched record is deleted before the second poll. *)
Lemma deleted_file_stops_the_monitor_witness :
  ∃ e,
    Update.monitor_changes content_digest elements_order
      [watched_directory; []] watching
    = Raise e.
Proof.
  apply (deleted_file_stops_the_monitor content_digest elements_order
           [watched_directory; []] watching "lease_terms.txt" []).
  - apply (bool_decide_unpack _). vm_compute. exact I.
  - left.
  - right. left.
  - reflexivity.
Defined.

(** One PDF file, empty text and results directories, the models
    loaded. *)
Lemma readable_pdf_ends_as_record_witness :
  ∃ texts written log,
    Main.preprocess one_page elements_order (Ok ()) proposing_two_terms
      lease_pdf_directory [] [] lease_ground_truth_directory
    = (texts, written, log, Ok ()).
Proof.
  destruct (readable_pdf_ends_as_record one_page elements_order (Ok ())
              proposing_two_terms lease_pdf_directory [] []
              lease_ground_truth_directory)
    as (texts & log & _ & written & Hrun & _).
  - intros text. by exists two_terms.
  - constructor.
  - by exists texts, written, log.
Defined.

(** ** Files read in text mode *)

Lemma is_code_spec (n : N) (c : ascii) :
  (n < 256)%N → is_code n c = true ↔ c = ascii_of_N n.
Proof.
  intros Hn. unfold is_code, code. rewrite N.eqb_eq. split.
  - intros <-. by rewrite ascii_N_embedding.
  - intros ->. by rewrite N_ascii_embedding.
Qed.

Lemma splitlines_go_universal_newlines (s cur : str) :
  splitlines_go false cur (universal_newlines s) = splitlines_go false cur s.
Proof.
  remember (length s) as n eqn:Hn. revert s cur Hn.
  induction n as [n IH] using lt_wf_ind. intros s cur Hn.
  destruct s as [|c s']; [done|].
  cbn [universal_newlines]. destruct (is_code 13 c) eqn:Hc.
  - apply is_code_spec in Hc as ->; [|done].
    cbn [splitlines_go andb]. change (is_linebreak LF) with true.
    change (is_linebreak (ascii_of_N 13)) with true.
    change (is_code 13 LF) with false.
    change (is_code 13 (ascii_of_N 13)) with true.
    cbv iota. f_equal. destruct s' as [|d s'']; [done|].
    cbn [splitlines_go andb]. destruct (is_code 10 d) eqn:Hd.
    + apply is_code_spec in Hd as ->; [|done].
      rewrite bool_decide_eq_true_2 by done.
      apply (IH (length s'')); [cbn in Hn; lia | done].
    + rewrite bool_decide_eq_false_2.
      2:{ intros ->. by vm_compute in Hd. }
      rewrite (IH (length (d :: s''))); [|cbn in Hn |- *; lia | done].
      cbn [splitlines_go andb]. done.
  - cbn [splitlines_go andb]. destruct (is_linebreak c).
    + rewrite Hc. f_equal. apply (IH (length s')); [cbn in Hn; lia | done].
    + apply (IH (length s')); [cbn in Hn; lia | done].
Qed.

(** Reading in text mode changes no line: [splitlines] takes a carriage
    return, alone or with the line feed after it, for the line boundary
    that the translation makes of it.  So the loaders that split the
    content into lines, those of the ground truth and of the records, see
    the lines of the file as it is. *)
Lemma splitlines_universal_newlines (s : str) :
  splitlines (universal_newlines s) = splitlines s.
Proof. apply splitlines_go_universal_newlines. Qed.

(** ** The record of the section mapping *)










Lemma is_in_lower_case (term s : str) :
  is_in term (lower s) = true → lower term = term.
Proof.
  intros (pre & post & Hs)%is_in_spec.
  pose proof (lower_idem s) as Hidem. rewrite Hs, !lower_app in Hidem.
  apply app_inj_1 in Hidem as [_ Hidem]; [|apply length_fmap].
  apply app_inj_1 in Hidem as [Hterm _]; [done | apply length_fmap].
Qed.

(** The pipeline passes lower-case terms to [map_terms_to_sections]: when
    the candidates are lower-case, as those of [extract_key_terms] are,
    so are the relevant terms, whatever the ground truth. *)
Lemma relevant_terms_are_lower_case (order : SetOrder)
    (extract_key_terms : str → result (gset str)) (ground_truth : gset str)
    (text : str) candidates terms record :
  extract_key_terms text = Ok candidates →
  (∀ term, term ∈ candidates → lower term = term) →
  process_document order extract_key_terms ground_truth text
  = Ok (terms, record) →
  Forall (λ term, lower term = term) terms.
Proof.
  intros Hextract Hcandidates. unfold process_document. rewrite Hextract.
  cbv beta iota delta [mbind result_bind].
  set (relevant := filter_relevant_terms _ _).
  destruct (mapped_record text relevant) as (record' & -> & _).
  intros [= <- <-]. apply Forall_forall. intros term.
  unfold relevant. rewrite elem_of_relevant_terms.
  intros (_ & [Hin | [[Hcritical _] | Hin]]).
  - by apply Hcandidates.
  - unfold critical_terms in Hcritical.
    repeat (apply elem_of_cons in Hcritical as [-> | Hcritical];
            [reflexivity|]).
    by apply elem_of_nil in Hcritical.
  - by apply is_in_lower_case in Hin.
Qed.


